(** * Named-entity-recognition report: a model of [ner_project.py]

    The script runs a pre-trained spaCy pipeline over a list of sentences,
    flattens the detected entities into one table, prints descriptive
    statistics, and writes a CSV file and a text report.

    The embedding follows the script function by function.  The spaCy
    pipeline [nlp] and the glossary lookup [spacy.explain] are opaque
    collaborators and are taken as parameters.  Console output, the two
    output files and Python exceptions are threaded through a small
    state-and-exception monad.  The lines of the model carry the exact
    quotients as rationals; the binary64 value of a percentage and its
    rendering with one decimal are defined beside them. *)

From Stdlib Require Import QArith Qround Qabs Qpower Lqa.
From stdpp Require Import base list strings gmap sorting.

Close Scope Q_scope.

(** ** Data model *)

(** One element of [doc.ents]: the surface text and the label. *)
Definition Span : Type := string * string.

(** The dictionary built by [extract_entities] for one entity. *)
Record Entity := mkEntity {
  ent_text : string;
  ent_label : string;
  ent_description : option string
}.

(** One row of [all_results] (and of the DataFrame built from it). *)
Record EntityRecord := mkEntityRecord {
  text_id : nat;
  original_text : string;
  entity_text : string;
  entity_type : string;
  description : option string
}.

(** [pd.DataFrame(results)]: the rows, in insertion order. *)
Definition DataFrame : Type := list EntityRecord.

(** The result of [Series.value_counts()]: (value, count) pairs. *)
Definition Counts : Type := list (string * nat).

(** The Python exceptions that the modelled code can raise; all of them are
    subclasses of [Exception]. *)
Inductive Exn :=
  | ZeroDivisionError
  | KeyError (key : string)
  | OSError (msg : string).

(** One line of the breakdown in the text report:
    [- {entity_type}: {count} entities ({percentage:.1f}%)]. *)
Record ReportLine := mkReportLine {
  rl_type : string;
  rl_count : nat;
  rl_percentage : Q
}.

(** The text assembled in [summary_report]. *)
Record SummaryReport := mkSummaryReport {
  rep_date : string;
  rep_total_texts : nat;
  rep_total_entities : nat;
  rep_unique_entities : nat;
  rep_entity_types : nat;
  rep_breakdown : list ReportLine
}.

(** What a file on disk holds. *)
Inductive FileContent :=
  | CsvFile (rows : DataFrame)
  | TextFile (report : SummaryReport).

(** The lines the script prints, one constructor per [print] statement. *)
Inductive Line :=
  (* analyze_texts *)
  | LAnalyzing
  | LRule (width : nat)
  | LTextHeader (n : nat)
  | LText (text : string)
  | LEntities
  | LEntity (text label : string)
  | LNoEntitiesFound
  | LTotalExtracted (n : nat)
  (* create_analysis_report *)
  | LNoResults
  | LSummaryTitle
  | LTotalTexts (n : nat)
  | LTotalEntities (n : nat)
  | LUniqueEntities (n : nat)
  | LTypesFound (n : nat)
  | LAverage (avg : Q)
  | LBreakdownTitle
  | LBreakdown (ty : string) (count : nat) (percentage : Q) (descr : option string)
  | LCommonTitle
  | LCommon (entity : string) (count : nat)
  (* save_results *)
  | LSavedCsv
  | LSavedReport
  | LCouldNotSave (e : Exn)
  (* test_custom_text *)
  | LCustomTitle
  | LEntitiesFound
  | LCustomEntity (text label : string) (descr : option string)
  | LCustomNone
  (* main *)
  | LSampleCount (n : nat)
  | LCompleted
  | LCheckFiles
  | LFileName (name : string)
  | LNoEntitiesInTexts.

(** ** The world: console, file system, clock *)

(** How a write to a path goes wrong: the error message, and what the failed
    write leaves at the path ([None]: the path is left as it was). *)
Record Fault := mkFault {
  fault_msg : string;
  fault_residue : option FileContent
}.

Record World := mkWorld {
  console : list Line;
  files : gmap string FileContent;
  write_log : list string;
  faults : string → option Fault;
  clock : string
}.

Definition emit (ls : list Line) (w : World) : World :=
  {| console := console w ++ ls; files := files w;
     write_log := write_log w; faults := faults w; clock := clock w |}.

Definition store (path : string) (c : option FileContent) (w : World) : World :=
  {| console := console w;
     files := match c with Some c => <[path := c]> (files w) | None => files w end;
     write_log := write_log w ++ [path]; faults := faults w; clock := clock w |}.

(** ** The monad *)

Inductive Result (A : Type) :=
  | Ok (a : A)
  | Raise (e : Exn).
Arguments Ok {A} a.
Arguments Raise {A} e.

Definition IO (A : Type) : Type := World → Result A * World.

Global Instance IO_ret : MRet IO := λ A a w, (Ok a, w).

Global Instance IO_bind : MBind IO := λ A B f m w,
  match m w with
  | (Ok a, w') => f a w'
  | (Raise e, w') => (Raise e, w')
  end.

Definition raise {A} (e : Exn) : IO A := λ w, (Raise e, w).

(** [try: body except Exception as e: handler e]. *)
Definition try_except {A} (body : IO A) (handler : Exn → IO A) : IO A := λ w,
  match body w with
  | (Ok a, w') => (Ok a, w')
  | (Raise e, w') => handler e w'
  end.

Definition print (l : Line) : IO unit := λ w, (Ok (), emit [l] w).

(** Opening [path] for writing and writing [c] to it. *)
Definition write_file (path : string) (c : FileContent) : IO unit := λ w,
  match faults w path with
  | None => (Ok (), store path (Some c) w)
  | Some f => (Raise (OSError (fault_msg f)), store path (fault_residue f) w)
  end.

(** Observing a run: its outcome, the world it leaves, the lines it printed
    and the paths it tried to write. *)
Definition result_of {A} (m : IO A) (w : World) : Result A := (m w).1.
Definition world_after {A} (m : IO A) (w : World) : World := (m w).2.
Definition printed_by {A} (m : IO A) (w : World) : list Line :=
  drop (length (console w)) (console (world_after m w)).
Definition attempted_by {A} (m : IO A) (w : World) : list string :=
  drop (length (write_log w)) (write_log (world_after m w)).

(** [pd.Timestamp.now().strftime(...)]. *)
Definition timestamp_now : IO string := λ w, (Ok (clock w), w).

(** The quotient of two counts. *)
Definition ratio (a b : nat) : Q := (inject_Z (Z.of_nat a) / inject_Z (Z.of_nat b))%Q.

(** Python's [a / b] on integers. *)
Definition truediv (a b : nat) : IO Q :=
  match b with
  | O => raise ZeroDivisionError
  | S _ => mret (ratio a b)
  end.

(** ** Floats, as far as the percentages need them

    Python evaluates [count / total] and [... * 100] in binary64 and shows
    the result with [f"{percentage:.1f}"].  The lines of the model keep the
    exact quotient; the definitions below give the float that Python holds
    and the decimal it shows. *)

(** The integer nearest to [x], the even one when two are equally near. *)
Definition round_half_even (x : Q) : Z :=
  let f := Qfloor x in
  match (x - inject_Z f ?= 1 # 2)%Q with
  | Lt => f
  | Gt => (f + 1)%Z
  | Eq => if Z.even f then f else (f + 1)%Z
  end.

(** The exponent [e] with [2 ^ e <= x < 2 ^ (e + 1)], for a positive [x]. *)
Definition log2_floor (x : Q) : Z :=
  let e := (Z.log2 (Qnum x) - Z.log2 (Z.pos (Qden x)))%Z in
  if Qle_bool (2 ^ e) x then e else (e - 1)%Z.

(** The binary64 number nearest to a non-negative [x]: 53 significant bits,
    ties to the even significand.  The exponent range is not modelled; the
    quotients of two counts and their hundredfold are far inside it. *)
Definition float64 (x : Q) : Q :=
  if Qle_bool x 0 then 0%Q
  else
    let e := (log2_floor x - 52)%Z in
    (inject_Z (round_half_even (x / 2 ^ e)) * 2 ^ e)%Q.

(** The float that [(count / total) * 100] evaluates to. *)
Definition float_percentage (count total : nat) : Q :=
  float64 (float64 (ratio count total) * 100).

(** [f"{x:.1f}"] of a non-negative float, as a number of tenths: the decimal
    with one digit nearest to the float, ties to the even digit. *)
Definition format_1f (x : Q) : Z := round_half_even (x * 10).



(** [for x in xs: body], where the body updates a local variable. *)
Fixpoint for_acc {A S : Type} (xs : list A) (s : S) (body : S → A → IO S) : IO S :=
  match xs with
  | [] => mret s
  | x :: xs' => s' ← body s x; for_acc xs' s' body
  end.

(** [for x in xs: body]. *)
Fixpoint for_each {A : Type} (xs : list A) (body : A → IO unit) : IO unit :=
  match xs with
  | [] => mret ()
  | x :: xs' => body x;; for_each xs' body
  end.

(** [enumerate(xs)], counting from [k]. *)
Fixpoint enumerate_from {A : Type} (k : nat) (xs : list A) : list (nat * A) :=
  match xs with
  | [] => []
  | x :: xs' => (k, x) :: enumerate_from (S k) xs'
  end.

Definition enumerate {A : Type} (xs : list A) : list (nat * A) := enumerate_from 0 xs.

(** ** pandas *)

(** The hash-table pass of [value_counts]: one counter per distinct value, in
    order of first appearance. *)
Fixpoint bump (k : string) (acc : Counts) : Counts :=
  match acc with
  | [] => [(k, 1)]
  | (k', n) :: acc' =>
      if decide (k = k') then (k', S n) :: acc' else (k', n) :: bump k acc'
  end.

Definition tally (xs : list string) : Counts := foldl (λ acc k, bump k acc) [] xs.

Definition count_ge : relation (string * nat) := λ a b, (b.2 ≤ a.2)%nat.

(** Inserting a counter in front of a list that is in descending order of
    count: it goes before the first counter that is not larger, so before
    those of the same count. *)
Fixpoint insert_desc (p : string * nat) (l : Counts) : Counts :=
  match l with
  | [] => [p]
  | q :: l' =>
      if decide (q.2 ≤ p.2) then p :: q :: l' else q :: insert_desc p l'
  end.

(** A stable sort by descending count. *)
Definition sort_desc (l : Counts) : Counts := foldr insert_desc [] l.

(** [Series.value_counts()]: counts per distinct value, largest first, and
    in order of first appearance among equal counts. *)
Definition value_counts (xs : list string) : Counts := sort_desc (tally xs).


(** [df[name]]: a frame built from an empty list of rows has no columns. *)
Definition column {A} (name : string) (proj : EntityRecord → A) (df : DataFrame)
  : IO (list A) :=
  match df with
  | [] => raise (KeyError name)
  | _ :: _ => mret (proj <$> df)
  end.

(** [Series.nunique()]. *)
Definition nunique `{EqDecision A} (xs : list A) : nat := length (remove_dups xs).

(** [.head(n)]. *)
Definition head_n {A} (n : nat) (xs : list A) : list A := take n xs.

(** ** The script *)

Definition get_sample_texts : list string :=
  [ "Barack Obama was the 44th President of the United States and was born in Hawaii.";
    "Apple Inc. is a technology company based in Cupertino, California, founded by Steve Jobs.";
    "Sachin Tendulkar is a legendary cricket player from Mumbai, India.";
    "Microsoft Corporation was founded by Bill Gates and Paul Allen in 1975.";
    "The Eiffel Tower is a famous landmark located in Paris, France.";
    "Google was started by Larry Page and Sergey Brin at Stanford University.";
    "Lionel Messi plays football for Paris Saint-Germain and the Argentina national team.";
    "Amazon.com was founded by Jeff Bezos in Seattle, Washington." ].

Definition custom_text : string :=
  "Rohit Sharma, a cricketing genius known for his effortless elegance, destructive batting, and record-breaking centuries. His leadership, poise, and consistency have solidified him as one of the game’s finest, inspiring millions with each powerful stroke and calculated innings.".

(** [summary_report += line]. *)
Definition add_line (r : SummaryReport) (l : ReportLine) : SummaryReport :=
  mkSummaryReport (rep_date r) (rep_total_texts r) (rep_total_entities r)
    (rep_unique_entities r) (rep_entity_types r) (rep_breakdown r ++ [l]).

(** The value of the local variable [common_entities] of
    [create_analysis_report]: [value_counts().head(10)] of the entity texts. *)
Definition common_entities (texts : list string) : Counts :=
  head_n 10 (value_counts texts).

Section Script.
(** The loaded pipeline: [nlp(text).ents] as (text, label) pairs. *)
Variable nlp : string → list Span.
(** [spacy.explain]: [None] for a label the glossary does not know. *)
Variable explain : string → option string.

Definition extract_entities (text : string) : list Entity :=
  (λ ent, mkEntity ent.1 ent.2 (explain ent.2)) <$> nlp text.

Definition analyze_texts (texts : list string) : IO (list EntityRecord) :=
  print LAnalyzing;;
  print (LRule 50);;
  all_results ← for_acc (enumerate texts) [] (λ all_results '(i, text),
    print (LTextHeader (i + 1));;
    print (LText text);;
    print LEntities;;
    let entities := extract_entities text in
    match entities with
    | _ :: _ =>
        for_acc entities all_results (λ all_results entity,
          print (LEntity (ent_text entity) (ent_label entity));;
          mret (all_results ++
                [mkEntityRecord (i + 1) text (ent_text entity)
                   (ent_label entity) (ent_description entity)]))
    | [] =>
        print LNoEntitiesFound;;
        mret all_results
    end);
  print (LTotalExtracted (length all_results));;
  mret all_results.

Definition create_analysis_report (results : list EntityRecord)
  : IO (option DataFrame * option Counts) :=
  match results with
  | [] =>
      print LNoResults;;
      mret (None, None)
  | _ :: _ =>
      let df : DataFrame := results in
      ids ← column "text_id" text_id df;
      let total_texts := nunique ids in
      let total_entities := length df in
      texts ← column "entity_text" entity_text df;
      let unique_entities := nunique texts in
      types ← column "entity_type" entity_type df;
      let unique_types := nunique types in
      avg_entities_per_text ← truediv total_entities total_texts;
      types ← column "entity_type" entity_type df;
      let entity_counts := value_counts types in
      texts ← column "entity_text" entity_text df;
      let common_entities := common_entities texts in
      print LSummaryTitle;;
      print (LRule 40);;
      print (LTotalTexts total_texts);;
      print (LTotalEntities total_entities);;
      print (LUniqueEntities unique_entities);;
      print (LTypesFound unique_types);;
      print (LAverage avg_entities_per_text);;
      print LBreakdownTitle;;
      for_each entity_counts (λ '(entity_type, count),
        q ← truediv count total_entities;
        let percentage := (q * 100)%Q in
        let description := explain entity_type in
        print (LBreakdown entity_type count percentage description));;
      print LCommonTitle;;
      for_each (head_n 5 common_entities) (λ '(entity, count),
        print (LCommon entity count));;
      mret (Some df, Some entity_counts)
  end.

Definition save_results (df : DataFrame) : IO unit :=
  try_except
    (write_file "ner_results.csv" (CsvFile df);;
     print LSavedCsv;;
     now ← timestamp_now;
     ids ← column "text_id" text_id df;
     texts ← column "entity_text" entity_text df;
     types ← column "entity_type" entity_type df;
     let summary_report :=
       mkSummaryReport now (nunique ids) (length df) (nunique texts)
         (nunique types) [] in
     types ← column "entity_type" entity_type df;
     let entity_counts := value_counts types in
     summary_report ← for_acc entity_counts summary_report
       (λ summary_report '(entity_type, count),
          q ← truediv count (length df);
          let percentage := (q * 100)%Q in
          mret (add_line summary_report
                  (mkReportLine entity_type count percentage)));
     write_file "ner_summary_report.txt" (TextFile summary_report);;
     print LSavedReport)
    (λ e, print (LCouldNotSave e)).

Definition test_custom_text : IO unit :=
  print LCustomTitle;;
  print (LRule 30);;
  print (LText custom_text);;
  print LEntitiesFound;;
  match nlp custom_text with
  | (_ :: _) as ents =>
      for_each ents (λ ent, print (LCustomEntity ent.1 ent.2 (explain ent.2)))
  | [] => print LCustomNone
  end.

(** Steps 3 to 7 of [main] on a given list of texts.  Steps 1 and 2
    (installing the packages and loading the model) yield [nlp]. *)
Definition main_on (sample_texts : list string) : IO unit :=
  print (LSampleCount (length sample_texts));;
  results ← analyze_texts sample_texts;
  match results with
  | _ :: _ =>
      '(df, entity_counts) ← create_analysis_report results;
      match df with
      | Some df => save_results df
      | None => mret ()
      end;;
      test_custom_text;;
      print LCompleted;;
      print LCheckFiles;;
      print (LFileName "ner_results.csv");;
      print (LFileName "ner_summary_report.txt")
  | [] => print LNoEntitiesInTexts
  end.

Definition main : IO unit := main_on get_sample_texts.

End Script.

(** ** What the loops compute

    Closed forms of the values and of the console lines that the loops of
    the script build up; the lemmas below show that the script computes
    them. *)

Section Closed_forms.
Variable nlp : string → list Span.
Variable explain : string → option string.

(** The rows appended for the text at index [i]. *)
Definition rows_of (i : nat) (text : string) : list EntityRecord :=
  (λ e, mkEntityRecord (i + 1) text (ent_text e) (ent_label e) (ent_description e))
    <$> extract_entities nlp explain text.

Fixpoint rows_from (k : nat) (texts : list string) : list EntityRecord :=
  match texts with
  | [] => []
  | t :: ts => rows_of k t ++ rows_from (S k) ts
  end.

(** The lines printed for the text at index [i]. *)
Definition lines_of (i : nat) (text : string) : list Line :=
  [LTextHeader (i + 1); LText text; LEntities] ++
  match extract_entities nlp explain text with
  | [] => [LNoEntitiesFound]
  | es => (λ e, LEntity (ent_text e) (ent_label e)) <$> es
  end.

Fixpoint lines_from (k : nat) (texts : list string) : list Line :=
  match texts with
  | [] => []
  | t :: ts => lines_of k t ++ lines_from (S k) ts
  end.

Definition analyze_lines (texts : list string) : list Line :=
  [LAnalyzing; LRule 50] ++ lines_from 0 texts ++
  [LTotalExtracted (length (rows_from 0 texts))].

Definition breakdown_line (total : nat) (p : string * nat) : Line :=
  LBreakdown p.1 p.2 (ratio p.2 total * 100)%Q (explain p.1).

Definition common_line (p : string * nat) : Line := LCommon p.1 p.2.

Definition report_lines (df : DataFrame) : list Line :=
  [LSummaryTitle; LRule 40;
   LTotalTexts (nunique (text_id <$> df));
   LTotalEntities (length df);
   LUniqueEntities (nunique (entity_text <$> df));
   LTypesFound (nunique (entity_type <$> df));
   LAverage (ratio (length df) (nunique (text_id <$> df)));
   LBreakdownTitle] ++
  (breakdown_line (length df) <$> value_counts (entity_type <$> df)) ++
  [LCommonTitle] ++
  (common_line <$> take 5 (take 10 (value_counts (entity_text <$> df)))).

Definition custom_lines : list Line :=
  [LCustomTitle; LRule 30; LText custom_text; LEntitiesFound] ++
  match nlp custom_text with
  | [] => [LCustomNone]
  | ents => (λ ent, LCustomEntity ent.1 ent.2 (explain ent.2)) <$> ents
  end.
End Closed_forms.

Definition report_line (total : nat) (p : string * nat) : ReportLine :=
  mkReportLine p.1 p.2 (ratio p.2 total * 100)%Q.

(** The report that [save_results] assembles for a non-empty frame. *)
Definition report_of (now : string) (df : DataFrame) : SummaryReport :=
  mkSummaryReport now (nunique (text_id <$> df)) (length df)
    (nunique (entity_text <$> df)) (nunique (entity_type <$> df))
    (report_line (length df) <$> value_counts (entity_type <$> df)).

(** Reading the printed statistics back from the console. *)
Definition breakdown_of (out : list Line) : list (string * nat * Q) :=
  omap (λ l, match l with LBreakdown t c p _ => Some (t, c, p) | _ => None end) out.

Definition common_of (out : list Line) : list (string * nat) :=
  omap (λ l, match l with LCommon e c => Some (e, c) | _ => None end) out.


(** Number of occurrences of [x] in [xs]. *)
Definition occurrences (x : string) (xs : list string) : nat :=
  length (filter (x =.) xs).

(** The total recorded for [k] in a list of counters. *)
Fixpoint recorded (k : string) (acc : Counts) : nat :=
  match acc with
  | [] => 0
  | (k', n) :: acc' => (if decide (k = k') then n else 0) + recorded k acc'
  end.

Definition csv_path : string := "ner_results.csv".
Definition report_path : string := "ner_summary_report.txt".

(** ** A test double and sample worlds *)

Definition obama_text : string :=
  "Barack Obama was the 44th President of the United States and was born in Hawaii.".

(** A stub pipeline that finds the same four entities in every text. *)
Definition stub_nlp (text : string) : list Span :=
  [("Barack Obama", "PERSON"); ("44th", "ORDINAL");
   ("the United States", "GPE"); ("Hawaii", "GPE")].

(** A glossary that knows one label. *)
Definition stub_explain (label : string) : option string :=
  if decide (label = "GPE") then Some "Countries, cities, states" else None.

Definition stub_rows : list EntityRecord :=
  [mkEntityRecord 1 obama_text "Barack Obama" "PERSON" None;
   mkEntityRecord 1 obama_text "44th" "ORDINAL" None;
   mkEntityRecord 1 obama_text "the United States" "GPE" (Some "Countries, cities, states");
   mkEntityRecord 1 obama_text "Hawaii" "GPE" (Some "Countries, cities, states")].




Definition denied : Fault := mkFault "Permission denied" None.

(** A world where every write succeeds. *)
Definition healthy_world : World :=
  mkWorld [] ∅ [] (λ _, None) "2024-01-01 00:00:00".

(** A world where writing the CSV file fails. *)
Definition csv_denied_world : World :=
  mkWorld [] ∅ []
    (λ path, if decide (path = csv_path) then Some denied else None)
    "2024-01-01 00:00:00".

(** A world where writing the text report fails. *)
Definition report_denied_world : World :=
  mkWorld [] ∅ []
    (λ path, if decide (path = report_path) then Some denied else None)
    "2024-01-01 00:00:00".

Definition completion_lines : list Line :=
  [LCompleted; LCheckFiles; LFileName csv_path; LFileName report_path].

(** ** More ways of reading a run back *)

(** The (text, label) pairs of the entity lines of the progress output. *)
Definition entity_lines_of (out : list Line) : list (string * string) :=
  omap (λ l, match l with LEntity t lab => Some (t, lab) | _ => None end) out.

(** The numbers of the text headers of the progress output. *)
Definition headers_of (out : list Line) : list nat :=
  omap (λ l, match l with LTextHeader n => Some n | _ => None end) out.

(** The warnings printed by [save_results]. *)
Definition warnings_of (out : list Line) : list Exn :=
  omap (λ l, match l with LCouldNotSave e => Some e | _ => None end) out.

(** A row whose [text_id] is moved [k] positions further. *)
Definition shift_id (k : nat) (r : EntityRecord) : EntityRecord :=
  mkEntityRecord (k + text_id r) (original_text r) (entity_text r)
    (entity_type r) (description r).

(** A table with two texts, one entity repeated. *)
Definition two_text_rows : list EntityRecord :=
  [mkEntityRecord 1 "Obama met Obama." "Obama" "PERSON" None;
   mkEntityRecord 1 "Obama met Obama." "Obama" "PERSON" None;
   mkEntityRecord 3 "Hawaii." "Hawaii" "GPE" None].

(** A pipeline that finds entities only in the Obama sentence. *)
Definition picky_nlp (text : string) : list Span :=
  if decide (text = obama_text) then stub_nlp text else [].

(** A pipeline that agrees with [stub_nlp] except on the custom text. *)
Definition blind_nlp (text : string) : list Span :=
  if decide (text = custom_text) then [] else stub_nlp text.

(** ** Start-up: packages and model

    Steps 1 and 2 of [main] act on the Python installation rather than on
    the files of [World].  The installation says whether the three packages
    import and what [spacy.load] answers for a model name; what a shell
    command does to it is decided by the host.  The messages of steps 1 and
    2 are kept in [boot_console]; on the real console they precede
    everything the script proper prints. *)

Definition Pipeline : Type := string → list Span.

Record Site := mkSite {
  importable : bool;
  spacy_models : string → Result Pipeline
}.

(** The lines printed by steps 1 and 2. *)
Inductive BootLine :=
  | BInstalling
  | BInstallComplete
  | BModelNotFound.

Record Host := mkHost {
  site : Site;
  shell : string → Site → Site;
  commands : list string;
  boot_console : list BootLine;
  world : World
}.

Definition Boot (A : Type) : Type := Host → Result A * Host.

Global Instance Boot_ret : MRet Boot := λ A a h, (Ok a, h).

Global Instance Boot_bind : MBind Boot := λ A B f m h,
  match m h with
  | (Ok a, h') => f a h'
  | (Raise e, h') => (Raise e, h')
  end.

Definition boot_print (l : BootLine) : Boot unit := λ h,
  (Ok (), mkHost (site h) (shell h) (commands h) (boot_console h ++ [l]) (world h)).

(** [os.system(cmd)]; the exit status is discarded by every caller. *)
Definition os_system (cmd : string) : Boot unit := λ h,
  (Ok (), mkHost (shell h cmd (site h)) (shell h) (commands h ++ [cmd])
            (boot_console h) (world h)).

(** [spacy.load(name)]. *)
Definition spacy_load (name : string) : Boot Pipeline := λ h,
  (spacy_models (site h) name, h).

(** [try: body except IOError: handler]; [IOError] is [OSError], and any
    other exception passes through. *)
Definition try_except_ioerror {A} (body handler : Boot A) : Boot A := λ h,
  match body h with
  | (Raise (OSError _), h') => handler h'
  | other => other
  end.

(** Running a step of the script proper on the host's world. *)
Definition lift_io {A} (m : IO A) : Boot A := λ h,
  let '(r, w') := m (world h) in
  (r, mkHost (site h) (shell h) (commands h) (boot_console h) w').

Definition pip_install_cmd : string := "pip install spacy pandas matplotlib".
Definition download_cmd : string := "python -m spacy download en_core_web_sm".
Definition model_name : string := "en_core_web_sm".

(** The [try] block holds the three imports; [ImportError] is raised exactly
    when the packages do not import. *)
Definition install_requirements : Boot unit := λ h,
  if importable (site h) then (Ok (), h)
  else
    (boot_print BInstalling;;
     os_system pip_install_cmd;;
     os_system download_cmd;;
     boot_print BInstallComplete) h.

Definition load_spacy_model : Boot Pipeline :=
  try_except_ioerror
    (nlp ← spacy_load model_name;
     mret nlp)
    (boot_print BModelNotFound;;
     os_system download_cmd;;
     nlp ← spacy_load model_name;
     mret nlp).

(** [main()], all seven steps. *)
Definition run_main (explain : string → option string) : Boot unit :=
  install_requirements;;
  nlp ← load_spacy_model;
  lift_io (main nlp explain).

(** Observing a run on a host: its outcome and the host it leaves. *)
Definition boot_result {A} (m : Boot A) (h : Host) : Result A := (m h).1.
Definition host_after {A} (m : Boot A) (h : Host) : Host := (m h).2.

(** The host after the handler of [load_spacy_model] has printed its message
    and run the download. *)
Definition after_download (h : Host) : Host :=
  mkHost (shell h download_cmd (site h)) (shell h) (commands h ++ [download_cmd])
    (boot_console h ++ [BModelNotFound]) (world h).

(** The host after the handler of [install_requirements]. *)
Definition after_install (h : Host) : Host :=
  mkHost (shell h download_cmd (shell h pip_install_cmd (site h))) (shell h)
    (commands h ++ [pip_install_cmd; download_cmd])
    (boot_console h ++ [BInstalling; BInstallComplete]) (world h).

(** Sample hosts.  [model_missing] stands for the error of a missing model. *)
Definition model_missing : Exn := OSError "[E050] Can't find model".

(** A shell on which the download command installs [stub_nlp]. *)
Definition working_shell (cmd : string) (s : Site) : Site :=
  if decide (cmd = download_cmd)
  then mkSite (importable s)
         (λ name, if decide (name = model_name) then Ok stub_nlp else spacy_models s name)
  else s.

(** A shell on which no command has any effect. *)
Definition offline_shell (cmd : string) (s : Site) : Site := s.

Definition empty_site : Site := mkSite true (λ _, Raise model_missing).

Definition fresh_host : Host := mkHost empty_site working_shell [] [] healthy_world.
Definition offline_host : Host := mkHost empty_site offline_shell [] [] healthy_world.
Definition ready_host : Host :=
  mkHost (mkSite true (λ _, Ok stub_nlp)) offline_shell [] [] healthy_world.

(** A host whose installation is broken in a way that is not an [IOError]. *)
Definition corrupt_host : Host :=
  mkHost (mkSite true (λ _, Raise (KeyError "lang"))) working_shell [] [] healthy_world.

(** ** Running the monad *)

Lemma emit_emit l1 l2 w : emit l2 (emit l1 w) = emit (l1 ++ l2) w.
Proof. unfold emit; simpl. by rewrite (assoc_L (++)). Qed.

Lemma console_emit l w : console (emit l w) = console w ++ l.
Proof. done. Qed.

Lemma emit_nil w : emit [] w = w.
Proof. destruct w; unfold emit; simpl. by rewrite (right_id_L [] (++)). Qed.

Lemma run_bind {A B} (m : IO A) (f : A → IO B) w a w' :
  m w = (Ok a, w') → (m ≫= f) w = f a w'.
Proof. intros E. unfold mbind, IO_bind. by rewrite E. Qed.

Lemma run_print {B} l (f : unit → IO B) w : (print l ≫= f) w = f () (emit [l] w).
Proof. done. Qed.

Lemma run_ret {A} (a : A) w : (mret a : IO A) w = (Ok a, w).
Proof. done. Qed.

Lemma truediv_run a b w : b ≠ 0 → truediv a b w = (Ok (ratio a b), w).
Proof. by destruct b. Qed.

Lemma column_run {A} name (proj : EntityRecord → A) df w :
  df ≠ [] → column name proj df w = (Ok (proj <$> df), w).
Proof. by destruct df. Qed.

Lemma for_acc_run {A S} (g : S → A → S) (f : A → list Line)
    (body : S → A → IO S) xs s w :
  (∀ s x w, x ∈ xs → body s x w = (Ok (g s x), emit (f x) w)) →
  for_acc xs s body w = (Ok (foldl g s xs), emit (mjoin (f <$> xs)) w).
Proof.
  revert s w. induction xs as [|x xs IH]; intros s w Hb; simpl.
  - by rewrite emit_nil.
  - rewrite (run_bind _ _ _ _ _ (Hb s x w ltac:(left))).
    rewrite IH by (intros; apply Hb; by right).
    by rewrite emit_emit.
Qed.

Lemma for_each_run {A} (f : A → list Line) (body : A → IO unit) xs w :
  (∀ x w, x ∈ xs → body x w = (Ok (), emit (f x) w)) →
  for_each xs body w = (Ok (), emit (mjoin (f <$> xs)) w).
Proof.
  revert w. induction xs as [|x xs IH]; intros w Hb; simpl.
  - by rewrite emit_nil.
  - rewrite (run_bind _ _ _ _ _ (Hb x w ltac:(left))).
    rewrite IH by (intros; apply Hb; by right).
    by rewrite emit_emit.
Qed.

Lemma mjoin_singletons {A B} (f : A → B) xs : mjoin ((λ x, [f x]) <$> xs) = f <$> xs.
Proof. induction xs; simpl; by f_equal. Qed.

Lemma foldl_snoc {A B} (f : A → B) xs acc :
  foldl (λ acc x, acc ++ [f x]) acc xs = acc ++ (f <$> xs).
Proof.
  revert acc. induction xs as [|x xs IH]; intros acc; simpl.
  - by rewrite (right_id_L [] (++)).
  - by rewrite IH, <- (assoc_L (++)).
Qed.

(** ** The analyzer *)

Section Analyzer.
Variable nlp : string → list Span.
Variable explain : string → option string.

Lemma analyze_loop_run texts k acc w :
  for_acc (enumerate_from k texts) acc (λ all_results '(i, text),
    print (LTextHeader (i + 1));;
    print (LText text);;
    print LEntities;;
    let entities := extract_entities nlp explain text in
    match entities with
    | _ :: _ =>
        for_acc entities all_results (λ all_results entity,
          print (LEntity (ent_text entity) (ent_label entity));;
          mret (all_results ++
                [mkEntityRecord (i + 1) text (ent_text entity)
                   (ent_label entity) (ent_description entity)]))
    | [] =>
        print LNoEntitiesFound;;
        mret all_results
    end) w
  = (Ok (acc ++ rows_from nlp explain k texts),
     emit (lines_from nlp explain k texts) w).
Proof.
  revert k acc w. induction texts as [|t ts IH]; intros k acc w; simpl.
  - by rewrite emit_nil, (right_id_L [] (++)).
  - rewrite (run_bind _ _ _ (acc ++ rows_of nlp explain k t)
               (emit (lines_of nlp explain k t) w)).
    { by rewrite IH, emit_emit, <- (assoc_L (++)). }
    rewrite !run_print, !emit_emit. unfold rows_of, lines_of.
    destruct (extract_entities nlp explain t) as [|e es] eqn:E.
    + rewrite run_print, run_ret, emit_emit. simpl.
      by rewrite (right_id_L [] (++)).
    + rewrite (for_acc_run
          (λ a x, a ++ [mkEntityRecord (k + 1) t (ent_text x) (ent_label x)
                          (ent_description x)])
          (λ x, [LEntity (ent_text x) (ent_label x)])).
      * by rewrite emit_emit, foldl_snoc, mjoin_singletons.
      * intros s x w' _. by rewrite run_print.
Qed.

Lemma analyze_texts_run texts w :
  analyze_texts nlp explain texts w
  = (Ok (rows_from nlp explain 0 texts), emit (analyze_lines nlp explain texts) w).
Proof.
  unfold analyze_texts, enumerate, analyze_lines. rewrite !run_print.
  rewrite (run_bind _ _ _ _ _ (analyze_loop_run texts 0 [] _)). simpl.
  rewrite !emit_emit, run_print, run_ret, emit_emit. simpl.
  done.
Qed.

Lemma length_rows_from k texts :
  length (rows_from nlp explain k texts)
  = sum_list ((λ t, length (extract_entities nlp explain t)) <$> texts).
Proof.
  revert k. induction texts as [|t ts IH]; intros k; simpl; [done|].
  rewrite length_app, IH. unfold rows_of. by rewrite length_fmap.
Qed.

Lemma text_id_rows_of i t :
  text_id <$> rows_of nlp explain i t
  = replicate (length (extract_entities nlp explain t)) (S i).
Proof.
  unfold rows_of. induction (extract_entities nlp explain t); simpl; [done|].
  f_equal; [lia | done].
Qed.

Lemma text_id_rows_from k texts :
  text_id <$> rows_from nlp explain k texts
  = mjoin (imap (λ i t, replicate (length (extract_entities nlp explain t)) (S (k + i)))
             texts).
Proof.
  revert k. induction texts as [|t ts IH]; intros k; simpl; [done|].
  rewrite fmap_app, text_id_rows_of, IH, Nat.add_0_r. do 2 f_equal.
  apply imap_ext. intros i x _. simpl. do 2 f_equal. lia.
Qed.

Lemma rows_from_lower k texts :
  Forall (λ r, k < text_id r) (rows_from nlp explain k texts).
Proof.
  revert k. induction texts as [|t ts IH]; intros k; simpl; [constructor|].
  apply Forall_app. split.
  - unfold rows_of. apply Forall_fmap, Forall_true. intros e. simpl. lia.
  - eapply Forall_impl; [apply IH|]. intros r. simpl. lia.
Qed.

Lemma rows_from_sorted k texts :
  StronglySorted (≤) (text_id <$> rows_from nlp explain k texts).
Proof.
  revert k. induction texts as [|t ts IH]; intros k; simpl; [constructor|].
  rewrite fmap_app, text_id_rows_of.
  induction (extract_entities nlp explain t) as [|e es IHe]; simpl; [apply IH|].
  constructor; [done|]. apply Forall_app. split.
  - apply Forall_replicate. lia.
  - apply Forall_fmap. eapply Forall_impl; [apply (rows_from_lower (S k))|].
    intros r. simpl. lia.
Qed.

Lemma rows_from_consistent k texts r :
  r ∈ rows_from nlp explain k texts →
  k < text_id r ∧ texts !! (text_id r - 1 - k) = Some (original_text r) ∧
  description r = explain (entity_type r).
Proof.
  revert k. induction texts as [|t ts IH]; intros k; simpl.
  - by intros ?%elem_of_nil.
  - intros [Hr|Hr]%elem_of_app.
    + unfold rows_of, extract_entities in Hr.
      apply list_elem_of_fmap in Hr as (e & -> & He).
      apply list_elem_of_fmap in He as (sp & -> & _). simpl.
      replace (k + 1 - 1 - k) with 0 by lia. split; [lia|done].
    + destruct (IH _ Hr) as (Hk & Hl & Hd). split; [lia|]. split; [|done].
      replace (text_id r - 1 - k) with (S (text_id r - 1 - S k)) by lia. done.
Qed.
End Analyzer.

(** ** Counting values *)

Lemma occurrences_cons k x xs :
  occurrences k (x :: xs) = (if decide (k = x) then 1 else 0) + occurrences k xs.
Proof. unfold occurrences. rewrite filter_cons. by destruct (decide (k = x)). Qed.

Lemma occurrences_pos k xs : 0 < occurrences k xs ↔ k ∈ xs.
Proof.
  induction xs as [|x xs IH].
  - split; [inversion 1 | by intros ?%elem_of_nil].
  - rewrite occurrences_cons, elem_of_cons.
    destruct (decide (k = x)); [split; [by left | lia]|].
    rewrite <- IH. simpl. intuition congruence.
Qed.

Lemma recorded_bump k k' acc :
  recorded k' (bump k acc) = (if decide (k' = k) then 1 else 0) + recorded k' acc.
Proof.
  induction acc as [|[k0 n] acc IH]; simpl.
  - destruct (decide (k' = k)); lia.
  - destruct (decide (k = k0)) as [->|Hne]; simpl.
    + destruct (decide (k' = k0)); lia.
    + rewrite IH. destruct (decide (k' = k)), (decide (k' = k0)); lia.
Qed.

Lemma keys_bump_old k acc : k ∈ acc.*1 → (bump k acc).*1 = acc.*1.
Proof.
  induction acc as [|[k0 n] acc IH]; simpl.
  - by intros ?%elem_of_nil.
  - intros Hin. destruct (decide (k = k0)) as [->|Hne]; simpl; [done|].
    f_equal. apply IH. by apply elem_of_cons in Hin as [?|?].
Qed.

Lemma keys_bump_new k acc : k ∉ acc.*1 → (bump k acc).*1 = acc.*1 ++ [k].
Proof.
  induction acc as [|[k0 n] acc IH]; simpl; [done|].
  intros Hin. apply not_elem_of_cons in Hin as [Hne Hin].
  rewrite decide_False by done. simpl. f_equal. by apply IH.
Qed.

Lemma sum_bump k acc : sum_list (bump k acc).*2 = S (sum_list acc.*2).
Proof.
  induction acc as [|[k0 n] acc IH]; [done|]. cbn [bump].
  destruct (decide (k = k0)); csimpl in *; lia.
Qed.

Lemma positive_bump k acc :
  Forall (λ p, 0 < p.2) acc → Forall (λ p, 0 < p.2) (bump k acc).
Proof.
  induction acc as [|[k0 n] acc IH]; simpl; intros H.
  - repeat constructor.
  - apply Forall_cons in H as [H1 H2].
    destruct (decide (k = k0)); constructor; simpl in *; auto with lia.
Qed.

Lemma NoDup_bump k acc : NoDup acc.*1 → NoDup (bump k acc).*1.
Proof.
  intros H. destruct (decide (k ∈ acc.*1)).
  { by rewrite keys_bump_old. }
  rewrite keys_bump_new by done. apply NoDup_app. split_and!; [done| |apply NoDup_singleton].
  intros x Hx ->%list_elem_of_singleton. done.
Qed.

Lemma recorded_NoDup k c acc : NoDup acc.*1 → (k, c) ∈ acc → recorded k acc = c.
Proof.
  induction acc as [|[k0 n] acc IH]; simpl.
  - by intros _ ?%elem_of_nil.
  - intros [Hk0 Hnd]%NoDup_cons [Heq|Hin]%elem_of_cons.
    + injection Heq as -> ->. rewrite decide_True by done.
      assert (recorded k0 acc = 0) as ->; [|lia].
      clear IH Hnd. induction acc as [|[k1 m] acc IH]; simpl; [done|].
      rewrite decide_False, IH; [done| |].
      * intros ?. apply Hk0. simpl. by right.
      * intros ->. apply Hk0. simpl. by left.
    + rewrite decide_False, IH; [done..|].
      intros ->. apply Hk0. by apply (list_elem_of_fmap_2 fst _ (k0, c)).
Qed.

Section Tally.
Implicit Types (xs : list string) (acc : Counts).

Lemma tally_fold_spec xs acc :
  let r := foldl (λ acc k, bump k acc) acc xs in
  (NoDup acc.*1 → NoDup r.*1) ∧
  (Forall (λ p, 0 < p.2) acc → Forall (λ p, 0 < p.2) r) ∧
  sum_list r.*2 = sum_list acc.*2 + length xs ∧
  (∀ k, recorded k r = recorded k acc + occurrences k xs) ∧
  (∀ k, k ∈ r.*1 ↔ k ∈ acc.*1 ∨ k ∈ xs).
Proof.
  revert acc. induction xs as [|x xs IH]; intros acc; simpl.
  - split_and!; auto.
    intros k. rewrite elem_of_nil. tauto.
  - destruct (IH (bump x acc)) as (H1 & H2 & H3 & H4 & H5). split_and!.
    + eauto using NoDup_bump.
    + eauto using positive_bump.
    + rewrite H3, sum_bump. lia.
    + intros k. rewrite H4, recorded_bump, occurrences_cons. lia.
    + intros k. rewrite H5, elem_of_cons.
      destruct (decide (x ∈ acc.*1)) as [Hx|Hx].
      * rewrite keys_bump_old by done.
        split; [tauto|]. intros [?|[->|?]]; auto.
      * rewrite keys_bump_new, elem_of_app, list_elem_of_singleton by done.
        tauto.
Qed.

Lemma tally_NoDup xs : NoDup (tally xs).*1.
Proof. apply (tally_fold_spec xs []). constructor. Qed.

Lemma tally_sum xs : sum_list (tally xs).*2 = length xs.
Proof. by destruct (tally_fold_spec xs []) as (_ & _ & H & _). Qed.

Lemma tally_elem xs k c :
  (k, c) ∈ tally xs ↔ 0 < c ∧ c = occurrences k xs.
Proof.
  destruct (tally_fold_spec xs []) as (H1 & H2 & _ & H4 & H5).
  fold (tally xs) in *. split.
  - intros Hin. split.
    + assert (Forall (λ p : string * nat, 0 < p.2) (tally xs)) as HF
        by (apply H2; constructor).
      rewrite Forall_forall in HF. apply (HF _ Hin).
    + rewrite <- (recorded_NoDup k c (tally xs)); [|by apply H1; constructor|done].
      by rewrite H4.
  - intros [Hpos ->]. apply occurrences_pos in Hpos.
    assert (k ∈ (tally xs).*1) as Hk by (apply H5; by right).
    apply list_elem_of_fmap in Hk as ([k' c] & -> & Hin). simpl.
    pose proof (recorded_NoDup k' c (tally xs)
                  (H1 (NoDup_nil_2 : NoDup ([] : Counts).*1)) Hin) as E.
    rewrite H4 in E. simpl in E. by rewrite E.
Qed.
End Tally.

Lemma insert_desc_perm p l : insert_desc p l ≡ₚ p :: l.
Proof.
  induction l as [|q l IH]; cbn [insert_desc]; [done|].
  destruct (decide (q.2 ≤ p.2)); [done|]. rewrite IH. apply perm_swap.
Qed.

Lemma sort_desc_perm l : sort_desc l ≡ₚ l.
Proof.
  induction l as [|p l IH]; [done|].
  cbn [sort_desc foldr]. fold (sort_desc l). by rewrite insert_desc_perm, IH.
Qed.

Lemma insert_desc_sorted p l :
  StronglySorted count_ge l → StronglySorted count_ge (insert_desc p l).
Proof.
  induction 1 as [|q l Hl IH Hq]; cbn [insert_desc]; [repeat constructor|].
  destruct (decide (q.2 ≤ p.2)) as [Hle|Hgt].
  - constructor; [by constructor|]. constructor; [done|].
    eapply Forall_impl; [exact Hq|]. unfold count_ge. intros r ?. lia.
  - constructor; [done|]. rewrite insert_desc_perm. constructor; [|done].
    unfold count_ge. lia.
Qed.

Lemma sort_desc_sorted l : StronglySorted count_ge (sort_desc l).
Proof.
  induction l as [|p l IH]; [constructor|].
  cbn [sort_desc foldr]. by apply insert_desc_sorted.
Qed.

Lemma value_counts_perm xs : value_counts xs ≡ₚ tally xs.
Proof. apply sort_desc_perm. Qed.

Lemma value_counts_sorted xs : StronglySorted count_ge (value_counts xs).
Proof. apply sort_desc_sorted. Qed.

Lemma value_counts_NoDup xs : NoDup (value_counts xs).*1.
Proof. rewrite value_counts_perm. apply tally_NoDup. Qed.

Lemma value_counts_sum xs : sum_list (value_counts xs).*2 = length xs.
Proof. rewrite value_counts_perm. apply tally_sum. Qed.

Lemma value_counts_elem xs k c :
  (k, c) ∈ value_counts xs ↔ 0 < c ∧ c = occurrences k xs.
Proof. rewrite value_counts_perm. apply tally_elem. Qed.

Lemma value_counts_keys xs k : k ∈ (value_counts xs).*1 ↔ k ∈ xs.
Proof.
  split.
  - intros ([k' c] & -> & Hin)%list_elem_of_fmap.
    apply value_counts_elem in Hin as [? ->]. by apply occurrences_pos.
  - intros Hpos%occurrences_pos.
    apply (list_elem_of_fmap_2 fst _ (k, occurrences k xs)).
    by apply value_counts_elem.
Qed.

Example value_counts_obama :
  value_counts ["Hawaii"; "Obama"; "Obama"; "Obama"] = [("Obama", 3); ("Hawaii", 1)].
Proof. reflexivity. Qed.

Example value_counts_mixed :
  value_counts ["a"; "b"; "c"; "b"; "c"; "d"] = [("b", 2); ("c", 2); ("a", 1); ("d", 1)].
Proof. reflexivity. Qed.

Example value_counts_all_once :
  value_counts ["Ann"; "Bob"; "Cid"; "Dee"; "Eve"; "Fay"]
  = [("Ann", 1); ("Bob", 1); ("Cid", 1); ("Dee", 1); ("Eve", 1); ("Fay", 1)].
Proof. reflexivity. Qed.

Example value_counts_types_once :
  value_counts ["PERSON"; "ORG"; "GPE"] = [("PERSON", 1); ("ORG", 1); ("GPE", 1)].
Proof. reflexivity. Qed.

Lemma nunique_pos `{EqDecision A} (xs : list A) : xs ≠ [] → nunique xs ≠ 0.
Proof.
  destruct xs as [|x xs]; [done|]. intros _ H. unfold nunique in H.
  apply length_zero_iff_nil in H.
  assert (x ∈ remove_dups (x :: xs)) as Hx by (apply elem_of_remove_dups; by left).
  rewrite H in Hx. by apply elem_of_nil in Hx.
Qed.

(** ** The reporter *)

Lemma run_column {A B} name (proj : EntityRecord → A) df (f : list A → IO B) w :
  df ≠ [] → (column name proj df ≫= f) w = f (proj <$> df) w.
Proof. by destruct df. Qed.

Lemma run_truediv {B} a b (f : Q → IO B) w :
  b ≠ 0 → (truediv a b ≫= f) w = f (ratio a b) w.
Proof. by destruct b. Qed.

Lemma run_for_each {A B} (f : A → Line) (body : A → IO unit) xs (k : unit → IO B) w :
  (∀ x w, x ∈ xs → body x w = (Ok (), emit [f x] w)) →
  (for_each xs body ≫= k) w = k () (emit (f <$> xs) w).
Proof.
  intros Hb. rewrite <- mjoin_singletons.
  by rewrite (run_bind _ _ _ _ _ (for_each_run (λ x, [f x]) body xs w Hb)).
Qed.

Lemma create_analysis_report_run explain results w :
  results ≠ [] →
  create_analysis_report explain results w
  = (Ok (Some results, Some (value_counts (entity_type <$> results))),
     emit (report_lines explain results) w).
Proof.
  intros Hne. destruct results as [|r rs]; [done|].
  unfold create_analysis_report. cbv beta iota zeta.
  set (df := r :: rs) in *. clearbody df.
  rewrite !run_column by done.
  rewrite run_truediv by (apply nunique_pos; by destruct df).
  rewrite !run_column by done. rewrite !run_print.
  rewrite (run_for_each (breakdown_line explain (length df))); last first.
  { intros [ty c] w' _. rewrite run_truediv by (by destruct df).
    by rewrite <- (run_ret () (emit _ w')). }
  rewrite run_print.
  rewrite (run_for_each common_line); last first.
  { by intros [e c] w' _. }
  by rewrite run_ret, !emit_emit.
Qed.

(** ** The persister *)

Lemma try_except_ok {A} (body : IO A) h w a w' :
  body w = (Ok a, w') → try_except body h w = (Ok a, w').
Proof. intros E. unfold try_except. by rewrite E. Qed.

Lemma try_except_raise {A} (body : IO A) h w e w' :
  body w = (Raise e, w') → try_except body h w = h e w'.
Proof. intros E. unfold try_except. by rewrite E. Qed.

Lemma run_write_ok {B} path c (f : unit → IO B) w :
  faults w path = None → (write_file path c ≫= f) w = f () (store path (Some c) w).
Proof. intros E. unfold mbind, IO_bind, write_file. by rewrite E. Qed.

Lemma run_write_fault {B} path c (f : unit → IO B) w flt :
  faults w path = Some flt →
  (write_file path c ≫= f) w
  = (Raise (OSError (fault_msg flt)), store path (fault_residue flt) w).
Proof. intros E. unfold mbind, IO_bind, write_file. by rewrite E. Qed.

Lemma run_timestamp {B} (f : string → IO B) w :
  (timestamp_now ≫= f) w = f (clock w) w.
Proof. done. Qed.

Lemma foldl_add_line {A} (h : A → ReportLine) xs r :
  foldl (λ r p, add_line r (h p)) r xs
  = mkSummaryReport (rep_date r) (rep_total_texts r) (rep_total_entities r)
      (rep_unique_entities r) (rep_entity_types r) (rep_breakdown r ++ (h <$> xs)).
Proof.
  revert r. induction xs as [|x xs IH]; intros r; simpl.
  - destruct r; simpl. by rewrite (right_id_L [] (++)).
  - rewrite IH. simpl. by rewrite <- (assoc_L (++)).
Qed.

Lemma mjoin_nils {A B} (xs : list A) : mjoin ((λ _, @nil B) <$> xs) = [].
Proof. by induction xs. Qed.

Lemma save_results_csv_fault df w flt :
  faults w csv_path = Some flt →
  save_results df w
  = (Ok (), emit [LCouldNotSave (OSError (fault_msg flt))]
              (store csv_path (fault_residue flt) w)).
Proof.
  intros E. unfold save_results.
  erewrite try_except_raise; [|by apply run_write_fault]. done.
Qed.

Lemma save_results_no_columns w :
  faults w csv_path = None →
  save_results [] w
  = (Ok (), emit [LSavedCsv; LCouldNotSave (KeyError "text_id")]
              (store csv_path (Some (CsvFile [])) w)).
Proof.
  intros E. unfold save_results.
  erewrite try_except_raise; last first.
  { rewrite run_write_ok by done. rewrite run_print. reflexivity. }
  unfold print. by rewrite emit_emit.
Qed.

Lemma save_results_body_prefix df (k : SummaryReport → IO unit) w :
  df ≠ [] →
  (now ← timestamp_now;
   ids ← column "text_id" text_id df;
   texts ← column "entity_text" entity_text df;
   types ← column "entity_type" entity_type df;
   let summary_report :=
     mkSummaryReport now (nunique ids) (length df) (nunique texts)
       (nunique types) [] in
   types ← column "entity_type" entity_type df;
   let entity_counts := value_counts types in
   summary_report ← for_acc entity_counts summary_report
     (λ summary_report '(entity_type, count),
        q ← truediv count (length df);
        let percentage := (q * 100)%Q in
        mret (add_line summary_report
                (mkReportLine entity_type count percentage)));
   k summary_report) w
  = k (report_of (clock w) df) w.
Proof.
  intros Hne. rewrite run_timestamp. cbv beta zeta.
  rewrite !run_column by done.
  erewrite run_bind; last first.
  { apply (for_acc_run (λ r p, add_line r (report_line (length df) p)) (λ _, [])).
    intros s [ty c] w' _. rewrite run_truediv by (by destruct df).
    by rewrite emit_nil. }
  by rewrite foldl_add_line, mjoin_nils, emit_nil.
Qed.

Lemma save_results_report_fault df w flt :
  df ≠ [] → faults w csv_path = None → faults w report_path = Some flt →
  save_results df w
  = (Ok (), emit [LCouldNotSave (OSError (fault_msg flt))]
              (store report_path (fault_residue flt)
                 (emit [LSavedCsv] (store csv_path (Some (CsvFile df)) w)))).
Proof.
  intros Hne E1 E2. unfold save_results.
  erewrite try_except_raise; last first.
  { rewrite run_write_ok by done. rewrite run_print.
    rewrite save_results_body_prefix by done.
    by apply run_write_fault. }
  done.
Qed.

Lemma save_results_run df w :
  df ≠ [] → faults w csv_path = None → faults w report_path = None →
  save_results df w
  = (Ok (), emit [LSavedReport]
              (store report_path (Some (TextFile (report_of (clock w) df)))
                 (emit [LSavedCsv] (store csv_path (Some (CsvFile df)) w)))).
Proof.
  intros Hne E1 E2. unfold save_results.
  erewrite try_except_ok; [done|].
  rewrite run_write_ok by done. rewrite run_print.
  rewrite save_results_body_prefix by done.
  by rewrite run_write_ok.
Qed.

(** The four ways [save_results] can go. *)
Lemma save_results_cases df w :
  (∃ flt, faults w csv_path = Some flt ∧
     save_results df w
     = (Ok (), emit [LCouldNotSave (OSError (fault_msg flt))]
                 (store csv_path (fault_residue flt) w))) ∨
  (faults w csv_path = None ∧ df = [] ∧
     save_results df w
     = (Ok (), emit [LSavedCsv; LCouldNotSave (KeyError "text_id")]
                 (store csv_path (Some (CsvFile [])) w))) ∨
  (∃ flt, faults w csv_path = None ∧ df ≠ [] ∧ faults w report_path = Some flt ∧
     save_results df w
     = (Ok (), emit [LCouldNotSave (OSError (fault_msg flt))]
                 (store report_path (fault_residue flt)
                    (emit [LSavedCsv] (store csv_path (Some (CsvFile df)) w))))) ∨
  (faults w csv_path = None ∧ df ≠ [] ∧ faults w report_path = None ∧
     save_results df w
     = (Ok (), emit [LSavedReport]
                 (store report_path (Some (TextFile (report_of (clock w) df)))
                    (emit [LSavedCsv] (store csv_path (Some (CsvFile df)) w))))).
Proof.
  destruct (faults w csv_path) as [f1|] eqn:Ecsv.
  { left. eauto using save_results_csv_fault. }
  destruct (decide (df = [])) as [->|Hdf].
  { right; left. eauto using save_results_no_columns. }
  destruct (faults w report_path) as [f2|] eqn:Erep.
  - right; right; left. eauto 6 using save_results_report_fault.
  - right; right; right. eauto 6 using save_results_run.
Qed.

Lemma save_results_returns df w :
  ∃ w', save_results df w = (Ok (), w') ∧ console w `prefix_of` console w' ∧
        faults w' = faults w.
Proof.
  destruct (save_results_cases df w)
    as [(f & _ & E)|[(_ & _ & E)|[(f & _ & _ & _ & E)|(_ & _ & _ & E)]]];
    rewrite E; eexists; (split; [done|]); simpl; split; try done.
  - by eexists.
  - by eexists.
  - rewrite <- (assoc_L (++)). by eexists.
  - rewrite <- (assoc_L (++)). by eexists.
Qed.

(** ** The custom-text check and the main program *)

Lemma test_custom_text_run nlp explain w :
  test_custom_text nlp explain w = (Ok (), emit (custom_lines nlp explain) w).
Proof.
  unfold test_custom_text, custom_lines. rewrite !run_print, !emit_emit.
  destruct (nlp custom_text) as [|e es] eqn:E.
  - unfold print. by rewrite emit_emit.
  - rewrite (for_each_run (λ ent, [LCustomEntity ent.1 ent.2 (explain ent.2)])).
    + by rewrite emit_emit, mjoin_singletons.
    + done.
Qed.

Lemma main_on_empty nlp explain texts w :
  rows_from nlp explain 0 texts = [] →
  main_on nlp explain texts w
  = (Ok (), emit ([LSampleCount (length texts)] ++ analyze_lines nlp explain texts
                  ++ [LNoEntitiesInTexts]) w).
Proof.
  intros E. unfold main_on. rewrite run_print.
  rewrite (run_bind _ _ _ _ _ (analyze_texts_run _ _ _ _)), E.
  unfold print. by rewrite !emit_emit.
Qed.

Lemma main_on_run nlp explain texts w w3 :
  let results := rows_from nlp explain 0 texts in
  let w2 := emit ([LSampleCount (length texts)] ++ analyze_lines nlp explain texts
                  ++ report_lines explain results) w in
  results ≠ [] →
  save_results results w2 = (Ok (), w3) →
  main_on nlp explain texts w
  = (Ok (), emit (custom_lines nlp explain ++ completion_lines) w3).
Proof.
  intros results w2 Hne Hsave. unfold main_on. rewrite run_print.
  rewrite (run_bind _ _ _ _ _ (analyze_texts_run _ _ _ _)).
  fold results. destruct results as [|r rs] eqn:E; [done|].
  rewrite (run_bind _ _ _ _ _ (create_analysis_report_run _ _ _ Hne)).
  cbv beta iota. rewrite !emit_emit. fold w2.
  rewrite (run_bind _ _ _ _ _ Hsave).
  rewrite (run_bind _ _ _ _ _ (test_custom_text_run _ _ _)).
  rewrite !run_print. unfold print. by rewrite !emit_emit.
Qed.

(** ** Percentages *)





(** ** Reading the console back *)

Lemma breakdown_of_app l1 l2 : breakdown_of (l1 ++ l2) = breakdown_of l1 ++ breakdown_of l2.
Proof. apply omap_app. Qed.

Lemma common_of_app l1 l2 : common_of (l1 ++ l2) = common_of l1 ++ common_of l2.
Proof. apply omap_app. Qed.

Lemma breakdown_of_breakdown explain n (l : Counts) :
  breakdown_of (breakdown_line explain n <$> l)
  = (λ p, (p.1, p.2, ratio p.2 n * 100)%Q) <$> l.
Proof. induction l as [|p l IH]; csimpl; [done|]. by rewrite <- IH. Qed.

Lemma breakdown_of_common (l : Counts) : breakdown_of (common_line <$> l) = [].
Proof. by induction l. Qed.

Lemma common_of_breakdown explain n (l : Counts) :
  common_of (breakdown_line explain n <$> l) = [].
Proof. by induction l. Qed.

Lemma common_of_common (l : Counts) : common_of (common_line <$> l) = l.
Proof. induction l as [|[e c] l IH]; csimpl; [done|]. by rewrite IH. Qed.

Lemma breakdown_of_report_lines explain df :
  breakdown_of (report_lines explain df)
  = (λ p, (p.1, p.2, ratio p.2 (length df) * 100)%Q)
      <$> value_counts (entity_type <$> df).
Proof.
  unfold report_lines.
  rewrite !breakdown_of_app, breakdown_of_breakdown, breakdown_of_common.
  simpl. by rewrite (right_id_L [] (++)).
Qed.

Lemma common_of_report_lines explain df :
  common_of (report_lines explain df)
  = take 5 (take 10 (value_counts (entity_text <$> df))).
Proof.
  unfold report_lines.
  by rewrite !common_of_app, common_of_breakdown, common_of_common.
Qed.

Example healthy_run_writes_both_files :
  result_of (main_on stub_nlp stub_explain [obama_text]) healthy_world = Ok () ∧
  attempted_by (main_on stub_nlp stub_explain [obama_text]) healthy_world
  = [csv_path; report_path] ∧
  files (world_after (main_on stub_nlp stub_explain [obama_text]) healthy_world)
    !! csv_path = Some (CsvFile stub_rows).
Proof. vm_compute. done. Qed.

Lemma printed_by_run {A} (m : IO A) w r w' out :
  m w = (r, w') → console w' = console w ++ out → printed_by m w = out.
Proof.
  intros E Hc. unfold printed_by, world_after. rewrite E. simpl.
  by rewrite Hc, drop_app_length.
Qed.

Lemma attempted_by_run {A} (m : IO A) w r w' log :
  m w = (r, w') → write_log w' = write_log w ++ log → attempted_by m w = log.
Proof.
  intros E Hc. unfold attempted_by, world_after. rewrite E. simpl.
  by rewrite Hc, drop_app_length.
Qed.

(** * The claims *)

Lemma extract_entities_spans nlp explain t :
  (λ e, (ent_text e, ent_label e)) <$> extract_entities nlp explain t = nlp t.
Proof.
  unfold extract_entities. rewrite <- list_fmap_compose.
  rewrite <- (list_fmap_id (nlp t)) at 2. apply list_fmap_ext. by intros i [a b] _.
Qed.

Lemma length_extract_entities nlp explain t :
  length (extract_entities nlp explain t) = length (nlp t).
Proof. unfold extract_entities. apply length_fmap. Qed.

(** C1: for every list of texts and every extractor, [analyze_texts] returns
    a table whose size is the sum over the texts of the number of entities
    that the pipeline [nlp] finds in each, whose [text_id] column is
    non-decreasing, and in which the text at position [i] (counting from 0)
    has one row per entity found in it, each with [text_id = i + 1].
    [extract_entities] hands on exactly the pipeline's entities. *)
Theorem analyze_texts_size_and_order nlp explain texts w :
  ∃ results w',
    analyze_texts nlp explain texts w = (Ok results, w') ∧
    length results = sum_list ((λ t, length (nlp t)) <$> texts) ∧
    StronglySorted (≤) (text_id <$> results) ∧
    text_id <$> results
    = mjoin (imap (λ i t, replicate (length (nlp t)) (S i)) texts) ∧
    ∀ t, (λ e, (ent_text e, ent_label e)) <$> extract_entities nlp explain t = nlp t.
Proof.
  eexists _, _. split; [apply analyze_texts_run|]. split_and!.
  - rewrite length_rows_from. f_equal. apply list_fmap_ext.
    intros i t _. apply length_extract_entities.
  - apply rows_from_sorted.
  - rewrite text_id_rows_from. f_equal. apply imap_ext.
    intros i t _. cbn. by rewrite length_extract_entities.
  - intros t. apply extract_entities_spans.
Qed.

(** C2: applied to an empty table, [create_analysis_report] raises nothing
    (in particular no [ZeroDivisionError]), prints only the "no results"
    line, and returns [(None, None)]: no statistics are computed.  On no
    input at all does it raise [ZeroDivisionError]. *)
Theorem create_analysis_report_no_data explain w :
  create_analysis_report explain [] w = (Ok (None, None), emit [LNoResults] w) ∧
  ∀ results, (create_analysis_report explain results w).1 ≠ Raise ZeroDivisionError.
Proof.
  split; [done|]. intros [|r rs]; [done|].
  by rewrite create_analysis_report_run.
Qed.

(** *** Rounding *)

Example float64_tenth :
  Qred (float64 (1 # 10)) = (3602879701896397 # 36028797018963968)%Q.
Proof. reflexivity. Qed.

Example float_percentage_four_ninths :
  Qred (float_percentage 4 9) = (3127499741229511 # 70368744177664)%Q.
Proof. reflexivity. Qed.

Example format_1f_examples :
  (λ p, format_1f (float_percentage p.1 p.2))
    <$> [(4, 9); (3, 9); (2, 9); (1, 16); (3, 16); (1, 80); (7, 80); (2, 3); (9, 9)]
  = [444; 333; 222; 62; 188; 12; 88; 667; 1000]%Z.
Proof. reflexivity. Qed.












(** C4: on the single Obama sentence, with a stub extractor that returns
    (Barack Obama, PERSON), (44th, ORDINAL), (the United States, GPE) and
    (Hawaii, GPE), [analyze_texts] yields exactly four rows, all with
    [text_id = 1], and [create_analysis_report] reports 4 entities, 3 entity
    types (PERSON, ORDINAL, GPE) and an average of 4 entities per text. *)
Theorem obama_scenario explain w :
  ∃ results w1 df counts w2,
    analyze_texts stub_nlp explain [obama_text] w = (Ok results, w1) ∧
    length results = 4 ∧
    Forall (λ r, text_id r = 1) results ∧
    create_analysis_report explain results w1 = (Ok (Some df, Some counts), w2) ∧
    take 8 (printed_by (create_analysis_report explain results) w1)
    = [LSummaryTitle; LRule 40; LTotalTexts 1; LTotalEntities 4;
       LUniqueEntities 4; LTypesFound 3; LAverage 4%Q; LBreakdownTitle] ∧
    counts.*1 ≡ₚ ["PERSON"; "ORDINAL"; "GPE"].
Proof.
  eexists _, _, _, _, _. split_and!.
  - apply analyze_texts_run.
  - reflexivity.
  - repeat constructor.
  - by apply create_analysis_report_run.
  - unfold printed_by, world_after. rewrite create_analysis_report_run by done.
    simpl console. rewrite drop_app_length. vm_compute. reflexivity.
  - vm_compute. eapply perm_trans; [apply perm_swap | apply perm_skip, perm_swap].
Qed.

Lemma main_on_returns nlp explain texts w :
  result_of (main_on nlp explain texts) w = Ok ().
Proof.
  unfold result_of.
  destruct (decide (rows_from nlp explain 0 texts = [])) as [E|E].
  - by rewrite main_on_empty.
  - edestruct save_results_returns as (w3 & Hs & _).
    by erewrite main_on_run.
Qed.

(** C5: [save_results] never raises; whatever it printed before stays on the
    console; and when a write it attempted fails, the last line it prints is
    the warning carrying that error.  The whole program also returns
    normally whatever the write faults are, and when the analysis found
    entities its output still contains the statistics summary and ends with
    the completion message. *)
Theorem save_failure_is_not_fatal nlp explain texts df w :
  result_of (save_results df) w = Ok () ∧
  console w `prefix_of` console (world_after (save_results df) w) ∧
  (∀ path flt,
     path ∈ attempted_by (save_results df) w →
     faults w path = Some flt →
     last (printed_by (save_results df) w)
     = Some (LCouldNotSave (OSError (fault_msg flt)))) ∧
  result_of (main_on nlp explain texts) w = Ok () ∧
  (∀ r rs,
     result_of (analyze_texts nlp explain texts) w = Ok (r :: rs) →
     ∃ before after,
       printed_by (main_on nlp explain texts) w
       = before ++ printed_by (create_analysis_report explain (r :: rs)) w
         ++ after ++ completion_lines).
Proof.
  split_and!.
  - unfold result_of. destruct (save_results_returns df w) as (w' & -> & _). done.
  - unfold world_after. destruct (save_results_returns df w) as (w' & -> & ? & _). done.
  - intros path flt Hin Hf.
    destruct (save_results_cases df w)
      as [(f & Ec & E)|[(Ec & _ & E)|[(f & Ec & _ & Er & E)|(Ec & _ & Er & E)]]].
    + rewrite (attempted_by_run _ _ _ _ [csv_path] E) in Hin by done.
      apply list_elem_of_singleton in Hin as ->.
      rewrite (printed_by_run _ _ _ _ _ E eq_refl). simpl. congruence.
    + rewrite (attempted_by_run _ _ _ _ [csv_path] E) in Hin by done.
      apply list_elem_of_singleton in Hin as ->. congruence.
    + rewrite (attempted_by_run _ _ _ _ [csv_path; report_path] E) in Hin
        by (simpl; by rewrite <- (assoc_L (++))).
      rewrite (printed_by_run _ _ _ _
                 [LSavedCsv; LCouldNotSave (OSError (fault_msg f))] E)
        by (simpl; by rewrite <- (assoc_L (++))).
      apply elem_of_cons in Hin as [->|Hin]; [congruence|].
      apply list_elem_of_singleton in Hin as ->. simpl. congruence.
    + rewrite (attempted_by_run _ _ _ _ [csv_path; report_path] E) in Hin
        by (simpl; by rewrite <- (assoc_L (++))).
      apply elem_of_cons in Hin as [->|Hin]; [congruence|].
      apply list_elem_of_singleton in Hin as ->. congruence.
  - apply main_on_returns.
  - intros r rs Hres. unfold result_of in Hres.
    rewrite analyze_texts_run in Hres. simpl in Hres. injection Hres as Hrows.
    rewrite (printed_by_run _ _ _ _ _
               (create_analysis_report_run explain (r :: rs) w ltac:(done)) eq_refl).
    destruct (save_results_returns (r :: rs)
                (emit ([LSampleCount (length texts)] ++ analyze_lines nlp explain texts
                       ++ report_lines explain (r :: rs)) w))
      as (w3 & Hs & [out Hout] & _).
    pose proof (main_on_run nlp explain texts w w3) as Hmain.
    rewrite Hrows in Hmain. specialize (Hmain ltac:(done) Hs).
    exists ([LSampleCount (length texts)] ++ analyze_lines nlp explain texts),
           (out ++ custom_lines nlp explain).
    apply (printed_by_run _ _ _ _ _ Hmain).
    rewrite console_emit, Hout, console_emit. by rewrite <- !(assoc_L (++)).
Qed.

Lemma save_failure_is_not_fatal_witness :
  csv_path ∈ attempted_by (save_results stub_rows) csv_denied_world ∧
  faults csv_denied_world csv_path = Some denied ∧
  result_of (save_results stub_rows) csv_denied_world = Ok () ∧
  last (printed_by (save_results stub_rows) csv_denied_world)
  = Some (LCouldNotSave (OSError "Permission denied")) ∧
  result_of (main_on stub_nlp stub_explain [obama_text]) csv_denied_world = Ok () ∧
  ∃ before after,
    printed_by (main_on stub_nlp stub_explain [obama_text]) csv_denied_world
    = before ++ printed_by (create_analysis_report stub_explain stub_rows) csv_denied_world
      ++ after ++ completion_lines.
Proof.
  destruct (save_failure_is_not_fatal stub_nlp stub_explain [obama_text] stub_rows
              csv_denied_world) as (H1 & _ & H3 & H4 & H5).
  assert (csv_path ∈ attempted_by (save_results stub_rows) csv_denied_world) as Hin.
  { vm_compute. left. }
  split; [exact Hin|]. split; [reflexivity|]. split; [exact H1|].
  split; [exact (H3 csv_path denied Hin eq_refl)|]. split; [exact H4|].
  apply (H5 (mkEntityRecord 1 obama_text "Barack Obama" "PERSON" None)).
  vm_compute. reflexivity.
Defined.








Lemma length_value_counts_nunique xs : length (value_counts xs) = nunique xs.
Proof.
  rewrite <- (length_fmap fst). unfold nunique. apply Permutation_length.
  apply NoDup_Permutation; [apply value_counts_NoDup | apply NoDup_remove_dups|].
  intros k. by rewrite value_counts_keys, elem_of_remove_dups.
Qed.



(** C7: for a non-empty table, the breakdown printed by
    [create_analysis_report] lists each distinct entity type once, with its
    number of occurrences, in descending order of count, and the report
    written by [save_results] lists the same types and counts in the same
    order. *)
Theorem breakdown_order explain results w w2 :
  results ≠ [] →
  faults w2 csv_path = None →
  faults w2 report_path = None →
  ∃ df counts w1 w3 rep,
    create_analysis_report explain results w = (Ok (Some df, Some counts), w1) ∧
    fst <$> breakdown_of (printed_by (create_analysis_report explain results) w)
    = counts ∧
    StronglySorted count_ge counts ∧
    NoDup counts.*1 ∧
    (∀ t c, (t, c) ∈ counts ↔ 0 < c ∧ c = occurrences t (entity_type <$> results)) ∧
    save_results df w2 = (Ok (), w3) ∧
    files w3 !! report_path = Some (TextFile rep) ∧
    (λ l, (rl_type l, rl_count l)) <$> rep_breakdown rep = counts.
Proof.
  intros Hne E1 E2. eexists _, _, _, _, _. split_and!.
  - by apply create_analysis_report_run.
  - rewrite (printed_by_run _ _ _ _ _
               (create_analysis_report_run explain results w Hne) eq_refl).
    rewrite breakdown_of_report_lines, <- list_fmap_compose.
    rewrite <- (list_fmap_id (value_counts _)) at 2.
    apply list_fmap_ext. by intros i [t c] _.
  - apply value_counts_sorted.
  - apply value_counts_NoDup.
  - apply value_counts_elem.
  - by apply save_results_run.
  - simpl. apply lookup_insert_eq.
  - simpl. rewrite <- list_fmap_compose.
    rewrite <- (list_fmap_id (value_counts _)) at 2.
    apply list_fmap_ext. by intros i [t c] _.
Qed.

Lemma breakdown_order_witness :
  stub_rows ≠ [] ∧
  faults healthy_world csv_path = None ∧
  faults healthy_world report_path = None ∧
  ∃ df counts w1 w3 rep,
    create_analysis_report stub_explain stub_rows healthy_world
    = (Ok (Some df, Some counts), w1) ∧
    fst <$> breakdown_of
              (printed_by (create_analysis_report stub_explain stub_rows) healthy_world)
    = counts ∧
    StronglySorted count_ge counts ∧
    save_results df healthy_world = (Ok (), w3) ∧
    files w3 !! report_path = Some (TextFile rep) ∧
    (λ l, (rl_type l, rl_count l)) <$> rep_breakdown rep = counts.
Proof.
  split; [done|]. split; [reflexivity|]. split; [reflexivity|].
  destruct (breakdown_order stub_explain stub_rows healthy_world healthy_world)
    as (df & counts & w1 & w3 & rep & H1 & H2 & H3 & _ & _ & H6 & H7 & H8);
    [done | reflexivity | reflexivity |].
  by exists df, counts, w1, w3, rep.
Defined.

(** C8: every row returned by [analyze_texts] carries a [text_id] of at
    least 1, holds in [original_text] the input text at position
    [text_id - 1], and holds in [description] the glossary entry of its
    [entity_type]; hence rows of the same entity type have the same
    description. *)
Theorem records_consistent nlp explain texts w :
  ∃ results w',
    analyze_texts nlp explain texts w = (Ok results, w') ∧
    (∀ r, r ∈ results →
       1 ≤ text_id r ∧
       texts !! (text_id r - 1) = Some (original_text r) ∧
       description r = explain (entity_type r)) ∧
    (∀ r1 r2, r1 ∈ results → r2 ∈ results →
       entity_type r1 = entity_type r2 → description r1 = description r2).
Proof.
  eexists _, _. split; [apply analyze_texts_run|]. split.
  - intros r Hr. apply rows_from_consistent in Hr as (H1 & H2 & H3).
    rewrite Nat.sub_0_r in H2. split_and!; [lia|done..].
  - intros r1 r2 (_ & _ & H1)%rows_from_consistent (_ & _ & H2)%rows_from_consistent E.
    by rewrite H1, H2, E.
Qed.

Lemma records_consistent_witness :
  ∃ results w',
    analyze_texts stub_nlp stub_explain [obama_text] healthy_world = (Ok results, w') ∧
    let r := mkEntityRecord 1 obama_text "Hawaii" "GPE" (Some "Countries, cities, states") in
    r ∈ results ∧
    1 ≤ text_id r ∧
    [obama_text] !! (text_id r - 1) = Some (original_text r) ∧
    description r = stub_explain (entity_type r).
Proof.
  destruct (records_consistent stub_nlp stub_explain [obama_text] healthy_world)
    as (results & w' & E & H1 & _).
  exists results, w'. split; [exact E|]. intros r.
  assert (r ∈ results) as Hr.
  { rewrite analyze_texts_run in E. injection E as <- _.
    do 3 right. left. }
  split; [exact Hr|]. exact (H1 r Hr).
Defined.

(** C9: [save_results] is not atomic.  When the write of the CSV file fails,
    the text report is never attempted and whatever was at its path is left
    untouched.  When the CSV write succeeds it stays on disk: in particular,
    when the write of the text report then fails, both writes were attempted
    and the CSV file still holds the table. *)
Theorem save_is_not_atomic df w :
  (∀ flt,
     faults w csv_path = Some flt →
     attempted_by (save_results df) w = [csv_path] ∧
     files (world_after (save_results df) w) !! report_path = files w !! report_path) ∧
  (∀ flt,
     faults w csv_path = None →
     faults w report_path = Some flt →
     df ≠ [] →
     attempted_by (save_results df) w = [csv_path; report_path] ∧
     files (world_after (save_results df) w) !! csv_path = Some (CsvFile df) ∧
     result_of (save_results df) w = Ok ()).
Proof.
  split.
  - intros flt Ec.
    pose proof (save_results_csv_fault df w flt Ec) as E. split.
    + by apply (attempted_by_run _ _ _ _ _ E).
    + unfold world_after. rewrite E. cbn [snd files emit store].
      destruct (fault_residue flt); [|done].
      by apply lookup_insert_ne.
  - intros flt Ec Er Hne.
    pose proof (save_results_report_fault df w flt Hne Ec Er) as E. split_and!.
    + apply (attempted_by_run _ _ _ _ _ E). cbn [write_log emit store].
      by rewrite <- (assoc_L (++)).
    + unfold world_after. rewrite E. cbn [snd files emit store].
      destruct (fault_residue flt).
      * rewrite lookup_insert_ne by done. apply lookup_insert_eq.
      * apply lookup_insert_eq.
    + unfold result_of. by rewrite E.
Qed.

Lemma save_is_not_atomic_witness :
  (faults csv_denied_world csv_path = Some denied ∧
   attempted_by (save_results stub_rows) csv_denied_world = [csv_path] ∧
   files (world_after (save_results stub_rows) csv_denied_world) !! report_path
   = files csv_denied_world !! report_path) ∧
  (faults report_denied_world csv_path = None ∧
   faults report_denied_world report_path = Some denied ∧
   stub_rows ≠ [] ∧
   attempted_by (save_results stub_rows) report_denied_world = [csv_path; report_path] ∧
   files (world_after (save_results stub_rows) report_denied_world) !! csv_path
   = Some (CsvFile stub_rows) ∧
   result_of (save_results stub_rows) report_denied_world = Ok ()).
Proof.
  split.
  - split; [reflexivity|].
    exact (proj1 (save_is_not_atomic stub_rows csv_denied_world) denied eq_refl).
  - split; [reflexivity|]. split; [reflexivity|]. split; [done|].
    exact (proj2 (save_is_not_atomic stub_rows report_denied_world) denied
             eq_refl eq_refl ltac:(done)).
Defined.

(** C10: on the empty list of texts, [analyze_texts] returns the empty
    table, and the program then prints that no entities were found and
    returns without reporting statistics, without attempting any write and
    without changing any file. *)
Theorem empty_input_short_circuits nlp explain w :
  analyze_texts nlp explain [] w
  = (Ok [], emit [LAnalyzing; LRule 50; LTotalExtracted 0] w) ∧
  result_of (main_on nlp explain []) w = Ok () ∧
  printed_by (main_on nlp explain []) w
  = [LSampleCount 0; LAnalyzing; LRule 50; LTotalExtracted 0; LNoEntitiesInTexts] ∧
  attempted_by (main_on nlp explain []) w = [] ∧
  files (world_after (main_on nlp explain []) w) = files w.
Proof.
  split; [apply analyze_texts_run|].
  pose proof (main_on_empty nlp explain [] w eq_refl) as E. split_and!.
  - unfold result_of. by rewrite E.
  - by apply (printed_by_run _ _ _ _ _ E).
  - apply (attempted_by_run _ _ _ _ _ E). cbn [write_log emit].
    by rewrite (right_id_L [] (++)).
  - unfold world_after. by rewrite E.
Qed.

(** * Further properties of the script *)

(** ** The analyzer *)

Lemma result_of_analyze nlp explain texts w :
  result_of (analyze_texts nlp explain texts) w = Ok (rows_from nlp explain 0 texts).
Proof. unfold result_of. by rewrite analyze_texts_run. Qed.

Lemma printed_by_analyze nlp explain texts w :
  printed_by (analyze_texts nlp explain texts) w = analyze_lines nlp explain texts.
Proof. by apply (printed_by_run _ _ _ _ _ (analyze_texts_run nlp explain texts w)). Qed.

Lemma rows_of_shift nlp explain n k t :
  rows_of nlp explain (n + k) t = shift_id n <$> rows_of nlp explain k t.
Proof.
  unfold rows_of. rewrite <- list_fmap_compose. apply list_fmap_ext.
  intros i e _. unfold shift_id. simpl. f_equal. lia.
Qed.

Lemma rows_from_shift nlp explain n k texts :
  rows_from nlp explain (n + k) texts = shift_id n <$> rows_from nlp explain k texts.
Proof.
  revert k. induction texts as [|t ts IH]; intros k; [done|].
  cbn [rows_from]. rewrite fmap_app, rows_of_shift, <- IH.
  by rewrite Nat.add_succ_r.
Qed.

Lemma rows_from_app nlp explain k t1 t2 :
  rows_from nlp explain k (t1 ++ t2)
  = rows_from nlp explain k t1 ++ rows_from nlp explain (length t1 + k) t2.
Proof.
  revert k. induction t1 as [|t ts IH]; intros k; [done|].
  cbn [rows_from app length]. rewrite IH, <- (assoc_L (++)).
  by rewrite Nat.add_succ_r.
Qed.

(** X1: analysing a concatenation of two lists of texts gives the rows of
    the first list followed by the rows of the second list, with the
    [text_id] of the latter moved on by the length of the first list. *)
Theorem analyze_texts_app nlp explain texts1 texts2 w :
  ∃ rows1 rows2,
    result_of (analyze_texts nlp explain texts1) w = Ok rows1 ∧
    result_of (analyze_texts nlp explain texts2) w = Ok rows2 ∧
    result_of (analyze_texts nlp explain (texts1 ++ texts2)) w
    = Ok (rows1 ++ (shift_id (length texts1) <$> rows2)).
Proof.
  eexists _, _. split_and!; [apply result_of_analyze..|].
  rewrite result_of_analyze, rows_from_app, <- rows_from_shift.
  by rewrite Nat.add_0_r.
Qed.

Lemma entity_lines_of_app l1 l2 :
  entity_lines_of (l1 ++ l2) = entity_lines_of l1 ++ entity_lines_of l2.
Proof. apply omap_app. Qed.

Lemma headers_of_app l1 l2 : headers_of (l1 ++ l2) = headers_of l1 ++ headers_of l2.
Proof. apply omap_app. Qed.

Lemma entity_lines_of_entities (es : list Entity) :
  entity_lines_of ((λ e, LEntity (ent_text e) (ent_label e)) <$> es)
  = (λ e, (ent_text e, ent_label e)) <$> es.
Proof. induction es as [|e es IH]; csimpl; [done|]. by rewrite <- IH. Qed.

Lemma headers_of_entities (es : list Entity) :
  headers_of ((λ e, LEntity (ent_text e) (ent_label e)) <$> es) = [].
Proof. by induction es. Qed.

Lemma entity_lines_of_lines_from nlp explain k texts :
  entity_lines_of (lines_from nlp explain k texts)
  = (λ r, (entity_text r, entity_type r)) <$> rows_from nlp explain k texts.
Proof.
  revert k. induction texts as [|t ts IH]; intros k; [done|].
  cbn [lines_from rows_from]. rewrite entity_lines_of_app, fmap_app, IH. f_equal.
  unfold lines_of, rows_of. rewrite entity_lines_of_app, <- list_fmap_compose.
  destruct (extract_entities nlp explain t) as [|e es] eqn:E; [done|].
  by rewrite entity_lines_of_entities.
Qed.

Lemma headers_of_lines_from nlp explain k texts :
  headers_of (lines_from nlp explain k texts) = seq (S k) (length texts).
Proof.
  revert k. induction texts as [|t ts IH]; intros k; [done|].
  cbn [lines_from length seq]. rewrite headers_of_app, IH. unfold lines_of.
  rewrite headers_of_app. replace (k + 1) with (S k) by lia.
  destruct (extract_entities nlp explain t) as [|e es]; [done|].
  by rewrite headers_of_entities.
Qed.

(** X2: the progress output of [analyze_texts] agrees with the table it
    returns: the entity lines name the rows' entity texts and types, one line
    per row and in the same order; one header is printed per text, numbered
    1, 2, ... ; and the last line reports the number of rows returned. *)
Theorem analyze_texts_output_matches_rows nlp explain texts w :
  ∃ rows,
    result_of (analyze_texts nlp explain texts) w = Ok rows ∧
    entity_lines_of (printed_by (analyze_texts nlp explain texts) w)
    = (λ r, (entity_text r, entity_type r)) <$> rows ∧
    headers_of (printed_by (analyze_texts nlp explain texts) w)
    = seq 1 (length texts) ∧
    last (printed_by (analyze_texts nlp explain texts) w)
    = Some (LTotalExtracted (length rows)).
Proof.
  eexists. split; [apply result_of_analyze|].
  rewrite printed_by_analyze. unfold analyze_lines. split_and!.
  - rewrite !entity_lines_of_app, entity_lines_of_lines_from. cbn.
    by rewrite (right_id_L [] (++)).
  - rewrite !headers_of_app, headers_of_lines_from. cbn.
    by rewrite (right_id_L [] (++)).
  - by rewrite !(assoc_L (++)), last_snoc.
Qed.

(** X3: neither [analyze_texts] nor [create_analysis_report] nor
    [test_custom_text] writes anything: each attempts no write and leaves
    every file as it was, on every input and in every world. *)
Theorem only_save_results_writes nlp explain texts results w :
  (attempted_by (analyze_texts nlp explain texts) w = [] ∧
   files (world_after (analyze_texts nlp explain texts) w) = files w) ∧
  (attempted_by (create_analysis_report explain results) w = [] ∧
   files (world_after (create_analysis_report explain results) w) = files w) ∧
  (attempted_by (test_custom_text nlp explain) w = [] ∧
   files (world_after (test_custom_text nlp explain) w) = files w).
Proof.
  assert (∀ l, write_log (emit l w) = write_log w ++ []) as Hlog
    by (intros; cbn; by rewrite (right_id_L [] (++))).
  split_and!.
  - apply (attempted_by_run _ _ _ _ _ (analyze_texts_run nlp explain texts w)), Hlog.
  - unfold world_after. by rewrite analyze_texts_run.
  - destruct results as [|r rs].
    + by apply (attempted_by_run _ _ (Ok (None, None)) (emit [LNoResults] w)).
    + apply (attempted_by_run _ _ _ _ _
               (create_analysis_report_run explain (r :: rs) w ltac:(done))), Hlog.
  - destruct results as [|r rs]; [done|].
    unfold world_after. by rewrite create_analysis_report_run.
  - apply (attempted_by_run _ _ _ _ _ (test_custom_text_run nlp explain w)), Hlog.
  - unfold world_after. by rewrite test_custom_text_run.
Qed.

(** ** The statistics *)

Lemma nunique_le_length `{EqDecision A} (xs : list A) : nunique xs ≤ length xs.
Proof.
  apply submseteq_length, NoDup_submseteq; [apply NoDup_remove_dups|].
  intros x. by rewrite elem_of_remove_dups.
Qed.

Lemma occurrences_le_length k xs : occurrences k xs ≤ length xs.
Proof. apply length_filter. Qed.

Lemma nunique_replicate_app (n x : nat) (l : list nat) :
  x ∉ l →
  nunique (replicate n x ++ l) = (if n is 0 then 0 else 1) + nunique l.
Proof.
  intros Hx. unfold nunique. induction n as [|n IH]; [done|].
  cbn [replicate app remove_dups]. unfold decide_rel. destruct n as [|n].
  - cbn [replicate app]. by destruct (list_elem_of_dec x l).
  - destruct (list_elem_of_dec x (replicate (S n) x ++ l)) as [_|H]; [exact IH|].
    exfalso. apply H. cbn. left.
Qed.

Lemma rows_from_nil nlp explain k texts :
  rows_from nlp explain k texts = [] ↔ Forall (λ t, nlp t = []) texts.
Proof.
  revert k. induction texts as [|t ts IH]; intros k; cbn [rows_from].
  - split; [constructor | done].
  - rewrite Forall_cons, <- (IH (S k)). unfold rows_of, extract_entities. split.
    + intros [H1 H2]%app_eq_nil. split; [|done].
      by apply fmap_nil_inv, fmap_nil_inv in H1.
    + intros [-> ->]. done.
Qed.

Lemma nunique_text_id_rows_from nlp explain k texts :
  nunique (text_id <$> rows_from nlp explain k texts)
  = length (filter (λ t, 0 < length (extract_entities nlp explain t)) texts).
Proof.
  revert k. induction texts as [|t ts IH]; intros k; [done|].
  cbn [rows_from]. rewrite fmap_app, text_id_rows_of, filter_cons.
  rewrite nunique_replicate_app.
  - rewrite IH. destruct (length (extract_entities nlp explain t)) as [|n].
    + by rewrite decide_False by lia.
    + by rewrite decide_True by lia.
  - intros (r & Hr & Hin)%list_elem_of_fmap.
    pose proof (rows_from_lower nlp explain (S k) ts) as Hlow.
    rewrite Forall_forall in Hlow. specialize (Hlow r Hin). simpl in Hlow. lia.
Qed.

Lemma printed_by_report explain results w :
  results ≠ [] →
  printed_by (create_analysis_report explain results) w = report_lines explain results.
Proof.
  intros Hne.
  by apply (printed_by_run _ _ _ _ _ (create_analysis_report_run explain results w Hne)).
Qed.

(** X4: the number printed as "Total texts analyzed" is the number of input
    texts in which at least one entity was found, not the number of texts
    that were analysed: texts without entities are not counted. *)
Theorem total_texts_counts_texts_with_entities nlp explain texts w w' t :
  t ∈ texts →
  nlp t ≠ [] →
  ∃ rows,
    result_of (analyze_texts nlp explain texts) w = Ok rows ∧
    printed_by (create_analysis_report explain rows) w' !! 2
    = Some (LTotalTexts
              (length (filter (λ t, 0 < length (extract_entities nlp explain t)) texts))).
Proof.
  intros Hin Hne. eexists. split; [apply result_of_analyze|].
  rewrite printed_by_report.
  - cbn. by rewrite nunique_text_id_rows_from.
  - intros Hnil%rows_from_nil. rewrite Forall_forall in Hnil. by apply Hne, Hnil.
Qed.

Lemma total_texts_counts_texts_with_entities_witness :
  obama_text ∈ [obama_text; "Nothing to see."] ∧
  picky_nlp obama_text ≠ [] ∧
  ∃ rows,
    result_of (analyze_texts picky_nlp stub_explain [obama_text; "Nothing to see."])
      healthy_world = Ok rows ∧
    printed_by (create_analysis_report stub_explain rows) healthy_world !! 2
    = Some (LTotalTexts 1).
Proof.
  assert (obama_text ∈ [obama_text; "Nothing to see."]) as Hin by left.
  assert (picky_nlp obama_text ≠ []) as Hne by done.
  split; [exact Hin|]. split; [exact Hne|].
  exact (total_texts_counts_texts_with_entities picky_nlp stub_explain
           [obama_text; "Nothing to see."] healthy_world healthy_world obama_text Hin Hne).
Defined.

Lemma ratio_ge_1 n a : 0 < a → a ≤ n → (1 <= ratio n a)%Q.
Proof.
  intros Ha Hle. unfold ratio. apply Qle_shift_div_l.
  - unfold Qlt. simpl. lia.
  - unfold Qle. simpl. lia.
Qed.

Lemma ratio_le_numerator n a : 0 < a → (ratio n a <= inject_Z (Z.of_nat n))%Q.
Proof.
  intros Ha. unfold ratio. apply Qle_shift_div_r.
  - unfold Qlt. simpl. lia.
  - unfold Qle. simpl. nia.
Qed.

(** X5: for a non-empty table the printed overview is consistent: the number
    of entities is the number of rows; the numbers of distinct texts, of
    distinct entity texts and of entity types each lie between 1 and the
    number of entities; and the average lies between 1 and the number of
    entities. *)
Theorem overview_bounds explain results w :
  results ≠ [] →
  ∃ texts entities unique types avg,
    take 8 (printed_by (create_analysis_report explain results) w)
    = [LSummaryTitle; LRule 40; LTotalTexts texts; LTotalEntities entities;
       LUniqueEntities unique; LTypesFound types; LAverage avg; LBreakdownTitle] ∧
    entities = length results ∧
    1 ≤ texts ≤ entities ∧
    1 ≤ unique ≤ entities ∧
    1 ≤ types ≤ entities ∧
    (1 <= avg)%Q ∧ (avg <= inject_Z (Z.of_nat entities))%Q.
Proof.
  intros Hne. rewrite printed_by_report by done.
  assert (∀ (A : Type) `{EqDecision A} (f : EntityRecord → A),
            1 ≤ nunique (f <$> results) ≤ length results) as Hb.
  { intros A ? f. split.
    - assert (nunique (f <$> results) ≠ 0); [|lia].
      apply nunique_pos. by destruct results.
    - rewrite <- (length_fmap f). apply nunique_le_length. }
  eexists _, _, _, _, _. split; [reflexivity|]. split_and!; try apply Hb; [done|..].
  - apply ratio_ge_1; apply (Hb nat _ text_id).
  - apply ratio_le_numerator. apply (Hb nat _ text_id).
Qed.

Lemma overview_bounds_witness :
  two_text_rows ≠ [] ∧
  ∃ avg,
    take 8 (printed_by (create_analysis_report stub_explain two_text_rows) healthy_world)
    = [LSummaryTitle; LRule 40; LTotalTexts 2; LTotalEntities 3;
       LUniqueEntities 2; LTypesFound 2; LAverage avg; LBreakdownTitle] ∧
    (1 <= avg)%Q ∧ (avg <= 3)%Q.
Proof.
  split; [done|].
  destruct (overview_bounds stub_explain two_text_rows healthy_world ltac:(done))
    as (texts & entities & unique & types & avg & E & He & _ & _ & _ & H1 & H2).
  subst entities. exists avg. split_and!; [|exact H1|exact H2].
  rewrite E. rewrite printed_by_report in E by done.
  vm_compute in E. by simplify_eq.
Defined.

Lemma breakdown_counts_of_report explain results :
  (λ x, x.1.2) <$> breakdown_of (report_lines explain results)
  = (value_counts (entity_type <$> results)).*2.
Proof.
  rewrite breakdown_of_report_lines, <- list_fmap_compose.
  apply list_fmap_ext. by intros i [t c] _.
Qed.

(** X6: for a non-empty table the breakdown is consistent with the overview
    printed above it: it has as many lines as the printed number of entity
    types, and its counts add up to the printed number of entities. *)
Theorem breakdown_matches_overview explain results w :
  results ≠ [] →
  let printed := printed_by (create_analysis_report explain results) w in
  printed !! 5 = Some (LTypesFound (length (breakdown_of printed))) ∧
  printed !! 3
  = Some (LTotalEntities (sum_list ((λ x, x.1.2) <$> breakdown_of printed))).
Proof.
  intros Hne printed. unfold printed. rewrite printed_by_report by done. split.
  - rewrite <- (length_fmap (λ x, x.1.2)), breakdown_counts_of_report.
    rewrite length_fmap, length_value_counts_nunique. done.
  - rewrite breakdown_counts_of_report, value_counts_sum, length_fmap. done.
Qed.

Lemma breakdown_matches_overview_witness :
  two_text_rows ≠ [] ∧
  breakdown_of (printed_by (create_analysis_report stub_explain two_text_rows)
                  healthy_world)
  = [("PERSON", 2, (ratio 2 3 * 100)%Q); ("GPE", 1, (ratio 1 3 * 100)%Q)] ∧
  printed_by (create_analysis_report stub_explain two_text_rows) healthy_world !! 5
  = Some (LTypesFound 2) ∧
  printed_by (create_analysis_report stub_explain two_text_rows) healthy_world !! 3
  = Some (LTotalEntities 3).
Proof.
  destruct (breakdown_matches_overview stub_explain two_text_rows healthy_world
              ltac:(done)) as [H1 H2].
  assert (breakdown_of (printed_by (create_analysis_report stub_explain two_text_rows)
                          healthy_world)
          = [("PERSON", 2, (ratio 2 3 * 100)%Q); ("GPE", 1, (ratio 1 3 * 100)%Q)]) as E
    by (by rewrite printed_by_report).
  rewrite E in H1, H2. by split_and!.
Defined.

(** X7: every percentage printed in the breakdown of a non-empty table is
    positive and at most 100. *)
Theorem percentage_range explain results w ty count pct :
  results ≠ [] →
  (ty, count, pct) ∈ breakdown_of (printed_by (create_analysis_report explain results) w) →
  (0 < pct)%Q ∧ (pct <= 100)%Q.
Proof.
  intros Hne. rewrite printed_by_report, breakdown_of_report_lines by done.
  intros ([t c] & [= -> -> ->] & Hin)%list_elem_of_fmap.
  apply value_counts_elem in Hin as [Hpos Hc]. simpl.
  assert (c ≤ length results) as Hle.
  { rewrite Hc, <- (length_fmap entity_type). apply occurrences_le_length. }
  assert (0 < length results) as Hlen by lia.
  unfold ratio. split.
  - apply Qmult_lt_0_compat; [|done]. apply Qlt_shift_div_l.
    + unfold Qlt. simpl. lia.
    + unfold Qlt. simpl. lia.
  - apply (Qle_trans _ (1 * 100)); [|done]. apply Qmult_le_compat_r; [|done].
    apply Qle_shift_div_r.
    + unfold Qlt. simpl. lia.
    + unfold Qle. simpl. lia.
Qed.

Lemma percentage_range_witness :
  two_text_rows ≠ [] ∧
  ("GPE", 1, (ratio 1 3 * 100)%Q)
    ∈ breakdown_of (printed_by (create_analysis_report stub_explain two_text_rows)
                      healthy_world) ∧
  (0 < ratio 1 3 * 100)%Q ∧ (ratio 1 3 * 100 <= 100)%Q.
Proof.
  assert (("GPE", 1, (ratio 1 3 * 100)%Q)
            ∈ breakdown_of (printed_by (create_analysis_report stub_explain two_text_rows)
                              healthy_world)) as Hin.
  { rewrite printed_by_report by done. right. left. }
  split; [done|]. split; [exact Hin|].
  exact (percentage_range stub_explain two_text_rows healthy_world _ _ _
           ltac:(done) Hin).
Defined.

(** X8: for a non-empty table the summary prints one line per distinct
    entity text, up to five, and the entity of the first line occurs at
    least as often as any other entity text of the table. *)
Theorem most_common_first explain results w :
  results ≠ [] →
  let common := common_of (printed_by (create_analysis_report explain results) w) in
  length common = 5 `min` nunique (entity_text <$> results) ∧
  ∃ entity count rest,
    common = (entity, count) :: rest ∧
    count = occurrences entity (entity_text <$> results) ∧
    ∀ other, occurrences other (entity_text <$> results) ≤ count.
Proof.
  intros Hne common. unfold common.
  rewrite printed_by_report, common_of_report_lines by done.
  rewrite take_take. change (5 `min` 10) with 5. split.
  - by rewrite length_take, length_value_counts_nunique.
  - pose proof (value_counts_sorted (entity_text <$> results)) as Hs.
    pose proof (value_counts_elem (entity_text <$> results)) as He.
    pose proof (length_value_counts_nunique (entity_text <$> results)) as Hl.
    destruct (value_counts (entity_text <$> results)) as [|[e c] gs].
    { exfalso. simpl in Hl. symmetry in Hl. revert Hl. apply nunique_pos.
      by destruct results. }
    exists e, c, (take 4 gs). split; [done|].
    split; [apply He; by left|]. intros other.
    destruct (decide (0 < occurrences other (entity_text <$> results))) as [Hp|]; [|lia].
    assert ((other, occurrences other (entity_text <$> results)) ∈ (e, c) :: gs)
      as [[= -> ->]|Hin]%elem_of_cons by (by apply He).
    + done.
    + apply StronglySorted_inv in Hs as [_ Hall].
      rewrite Forall_forall in Hall. apply (Hall _ Hin).
Qed.

Lemma most_common_first_witness :
  two_text_rows ≠ [] ∧
  common_of (printed_by (create_analysis_report stub_explain two_text_rows) healthy_world)
  = [("Obama", 2); ("Hawaii", 1)] ∧
  ∀ other, occurrences other (entity_text <$> two_text_rows) ≤ 2.
Proof.
  destruct (most_common_first stub_explain two_text_rows healthy_world ltac:(done))
    as (_ & e & c & rest & E & _ & Hmax).
  assert (common_of (printed_by (create_analysis_report stub_explain two_text_rows)
                       healthy_world)
          = [("Obama", 2); ("Hawaii", 1)]) as E'
    by (by rewrite printed_by_report).
  rewrite E' in E. injection E as <- <- _.
  split; [done|]. split; [exact E'|exact Hmax].
Defined.

(** ** The persister *)

Lemma warnings_of_app l1 l2 : warnings_of (l1 ++ l2) = warnings_of l1 ++ warnings_of l2.
Proof. apply omap_app. Qed.

(** X9: when both writes succeed on a non-empty table, the text report
    carries the clock's timestamp and repeats the console summary: the same
    four overview numbers and the same breakdown, percentages included. *)
Theorem report_repeats_console_summary explain results w w2 :
  results ≠ [] →
  faults w2 csv_path = None →
  faults w2 report_path = None →
  ∃ rep,
    files (world_after (save_results results) w2) !! report_path = Some (TextFile rep) ∧
    rep_date rep = clock w2 ∧
    take 6 (printed_by (create_analysis_report explain results) w)
    = [LSummaryTitle; LRule 40; LTotalTexts (rep_total_texts rep);
       LTotalEntities (rep_total_entities rep);
       LUniqueEntities (rep_unique_entities rep);
       LTypesFound (rep_entity_types rep)] ∧
    (λ l, (rl_type l, rl_count l, rl_percentage l)) <$> rep_breakdown rep
    = breakdown_of (printed_by (create_analysis_report explain results) w).
Proof.
  intros Hne E1 E2. exists (report_of (clock w2) results).
  unfold world_after. rewrite save_results_run, printed_by_report by done.
  split_and!.
  - cbn [snd files emit store]. apply lookup_insert_eq.
  - done.
  - done.
  - rewrite breakdown_of_report_lines. cbn [report_of rep_breakdown].
    rewrite <- list_fmap_compose. apply list_fmap_ext. by intros i [t c] _.
Qed.

Lemma report_repeats_console_summary_witness :
  two_text_rows ≠ [] ∧
  faults healthy_world csv_path = None ∧
  faults healthy_world report_path = None ∧
  ∃ rep,
    files (world_after (save_results two_text_rows) healthy_world) !! report_path
    = Some (TextFile rep) ∧
    rep_date rep = "2024-01-01 00:00:00" ∧
    take 6 (printed_by (create_analysis_report stub_explain two_text_rows) healthy_world)
    = [LSummaryTitle; LRule 40; LTotalTexts (rep_total_texts rep);
       LTotalEntities (rep_total_entities rep);
       LUniqueEntities (rep_unique_entities rep);
       LTypesFound (rep_entity_types rep)].
Proof.
  split; [done|]. split; [reflexivity|]. split; [reflexivity|].
  destruct (report_repeats_console_summary stub_explain two_text_rows
              healthy_world healthy_world) as (rep & H1 & H2 & H3 & _);
    [done | reflexivity | reflexivity |].
  by exists rep.
Defined.

(** X10: [save_results] touches nothing but its two files: in every world,
    with or without write faults, every other path holds afterwards what it
    held before, and no write to it is attempted. *)
Theorem save_results_touches_only_its_files df w path :
  path ≠ csv_path →
  path ≠ report_path →
  files (world_after (save_results df) w) !! path = files w !! path ∧
  path ∉ attempted_by (save_results df) w.
Proof.
  intros Hc Hr.
  assert (∀ p c (m : gmap string FileContent), p ≠ path →
            match c with Some c => <[p := c]> m | None => m end !! path = m !! path)
    as Hkeep.
  { intros p [c|] m Hp; [by apply lookup_insert_ne | done]. }
  destruct (save_results_cases df w)
    as [(f & _ & E)|[(_ & _ & E)|[(f & _ & _ & _ & E)|(_ & _ & _ & E)]]].
  - split.
    + unfold world_after. rewrite E. cbn [snd files emit store]. by apply Hkeep.
    + rewrite (attempted_by_run _ _ _ _ [csv_path] E) by done.
      by intros ->%list_elem_of_singleton.
  - split.
    + unfold world_after. rewrite E. cbn [snd files emit store].
      by apply lookup_insert_ne.
    + rewrite (attempted_by_run _ _ _ _ [csv_path] E) by done.
      by intros ->%list_elem_of_singleton.
  - split.
    + unfold world_after. rewrite E. cbn [snd files emit store].
      rewrite Hkeep by done. by apply lookup_insert_ne.
    + rewrite (attempted_by_run _ _ _ _ [csv_path; report_path] E)
        by (cbn; by rewrite <- (assoc_L (++))).
      intros [->|Hin]%elem_of_cons; [done|].
      by apply list_elem_of_singleton in Hin as ->.
  - split.
    + unfold world_after. rewrite E. cbn [snd files emit store].
      rewrite !lookup_insert_ne by done. done.
    + rewrite (attempted_by_run _ _ _ _ [csv_path; report_path] E)
        by (cbn; by rewrite <- (assoc_L (++))).
      intros [->|Hin]%elem_of_cons; [done|].
      by apply list_elem_of_singleton in Hin as ->.
Qed.

Lemma save_results_touches_only_its_files_witness :
  "notes.txt" ≠ csv_path ∧
  "notes.txt" ≠ report_path ∧
  files (world_after (save_results stub_rows) report_denied_world) !! "notes.txt"
  = files report_denied_world !! "notes.txt" ∧
  ("notes.txt" ∉ attempted_by (save_results stub_rows) report_denied_world).
Proof.
  split; [done|]. split; [done|].
  apply (save_results_touches_only_its_files stub_rows report_denied_world "notes.txt");
    done.
Defined.

(** X11: on a non-empty table the lines printed by [save_results] tell what
    happened: the CSV confirmation is printed exactly when the CSV write
    succeeds, the report confirmation exactly when both writes succeed, and
    a warning, never more than one, exactly when a write fails. *)
Theorem save_results_reports_outcome df w :
  df ≠ [] →
  let printed := printed_by (save_results df) w in
  (LSavedCsv ∈ printed ↔ faults w csv_path = None) ∧
  (LSavedReport ∈ printed ↔ faults w csv_path = None ∧ faults w report_path = None) ∧
  (warnings_of printed = [] ↔ faults w csv_path = None ∧ faults w report_path = None) ∧
  length (warnings_of printed) ≤ 1.
Proof.
  intros Hne printed. unfold printed.
  destruct (save_results_cases df w)
    as [(f & Ec & E)|[(_ & ? & _)|[(f & Ec & _ & Er & E)|(Ec & _ & Er & E)]]];
    [|done|..].
  - rewrite (printed_by_run _ _ _ _ _ E eq_refl). rewrite Ec. split_and!.
    + split; [|done]. by intros [=]%list_elem_of_singleton.
    + split; [|by intros [? _]]. by intros [=]%list_elem_of_singleton.
    + split; [done|by intros [? _]].
    + done.
  - rewrite (printed_by_run _ _ _ _
               [LSavedCsv; LCouldNotSave (OSError (fault_msg f))] E)
      by (cbn; by rewrite <- (assoc_L (++))).
    rewrite Ec, Er. split_and!.
    + split; [done|]. intros _. left.
    + split; [|by intros [_ ?]].
      intros [?|[=]%list_elem_of_singleton]%elem_of_cons; done.
    + split; [done|by intros [_ ?]].
    + done.
  - rewrite (printed_by_run _ _ _ _ [LSavedCsv; LSavedReport] E)
      by (cbn; by rewrite <- (assoc_L (++))).
    rewrite Ec, Er. split_and!.
    + split; [done|]. intros _. left.
    + split; [done|]. intros _. right. left.
    + done.
    + cbn. lia.
Qed.

Lemma save_results_reports_outcome_witness :
  stub_rows ≠ [] ∧
  (LSavedCsv ∈ printed_by (save_results stub_rows) report_denied_world) ∧
  (LSavedReport ∉ printed_by (save_results stub_rows) report_denied_world) ∧
  (warnings_of (printed_by (save_results stub_rows) report_denied_world) ≠ []).
Proof.
  destruct (save_results_reports_outcome stub_rows report_denied_world ltac:(done))
    as (H1 & H2 & H3 & _).
  split; [done|]. split_and!.
  - by apply H1.
  - by intros [_ ?]%H2.
  - by intros [_ ?]%H3.
Defined.

(** X12: a run of [save_results] whose writes succeed overwrites whatever an
    earlier run left: after saving one table and then a non-empty second
    one, the files are exactly those left by saving the second table
    alone. *)
Theorem save_results_overwrites df1 df2 w :
  df2 ≠ [] →
  faults w csv_path = None →
  faults w report_path = None →
  files (world_after (save_results df2) (world_after (save_results df1) w))
  = files (world_after (save_results df2) w).
Proof.
  intros Hne Ec Er. unfold world_after at 2.
  assert (∀ (m : gmap string FileContent) a b c d,
            <[report_path := d]> (<[csv_path := c]>
               (<[report_path := b]> (<[csv_path := a]> m)))
            = <[report_path := d]> (<[csv_path := c]> m)) as Hins.
  { intros m a b c d. apply map_eq. intros i.
    rewrite !lookup_insert. by repeat case_decide. }
  destruct (decide (df1 = [])) as [->|Hne1].
  - rewrite save_results_no_columns by done. cbn [snd].
    unfold world_after. rewrite !save_results_run by done.
    cbn [snd files emit store clock].
    apply map_eq. intros i. rewrite !lookup_insert. by repeat case_decide.
  - rewrite (save_results_run df1) by done. cbn [snd].
    unfold world_after. rewrite !save_results_run by done.
    cbn [snd files emit store clock]. apply Hins.
Qed.

Lemma save_results_overwrites_witness :
  two_text_rows ≠ [] ∧
  faults healthy_world csv_path = None ∧
  faults healthy_world report_path = None ∧
  files (world_after (save_results two_text_rows)
           (world_after (save_results stub_rows) healthy_world))
  = files (world_after (save_results two_text_rows) healthy_world).
Proof.
  split; [done|]. split; [reflexivity|]. split; [reflexivity|].
  apply (save_results_overwrites stub_rows two_text_rows healthy_world);
    [done | reflexivity | reflexivity].
Defined.

(** ** The main program *)

Lemma save_results_log df w :
  ∃ w3 log,
    save_results df w = (Ok (), w3) ∧ write_log w3 = write_log w ++ csv_path :: log.
Proof.
  destruct (save_results_cases df w)
    as [(f & _ & E)|[(_ & _ & E)|[(f & _ & _ & _ & E)|(_ & _ & _ & E)]]];
    rewrite E; eexists _, _; (split; [done|]); cbn [write_log emit store];
    rewrite <- ?(assoc_L (++)); done.
Qed.

Lemma extract_entities_nil nlp explain t :
  extract_entities nlp explain t = [] ↔ nlp t = [].
Proof.
  unfold extract_entities. split; [apply fmap_nil_inv | by intros ->].
Qed.

Lemma rows_from_ext nlp1 nlp2 explain k texts :
  (∀ t, t ∈ texts → nlp1 t = nlp2 t) →
  rows_from nlp1 explain k texts = rows_from nlp2 explain k texts ∧
  lines_from nlp1 explain k texts = lines_from nlp2 explain k texts.
Proof.
  revert k. induction texts as [|t ts IH]; intros k Hag; [done|].
  destruct (IH (S k)) as [E1 E2]; [intros; apply Hag; by right|].
  cbn [rows_from lines_from]. rewrite E1, E2.
  unfold rows_of, lines_of, extract_entities. by rewrite (Hag t) by left.
Qed.

(** X13: the program attempts a write exactly when the extractor found an
    entity in some text.  When no text has any entity, it leaves every file
    as it was and its last line says that no entities were found. *)
Theorem main_writes_iff_entities nlp explain texts w :
  (attempted_by (main_on nlp explain texts) w = []
   ↔ Forall (λ t, nlp t = []) texts) ∧
  (Forall (λ t, nlp t = []) texts →
   files (world_after (main_on nlp explain texts) w) = files w ∧
   last (printed_by (main_on nlp explain texts) w) = Some LNoEntitiesInTexts).
Proof.
  destruct (decide (rows_from nlp explain 0 texts = [])) as [E|E].
  - pose proof (main_on_empty nlp explain texts w E) as Hm.
    apply rows_from_nil in E. split.
    + split; [done|]. intros _. apply (attempted_by_run _ _ _ _ _ Hm).
      cbn [write_log emit]. by rewrite (right_id_L [] (++)).
    + intros _. split.
      * unfold world_after. by rewrite Hm.
      * rewrite (printed_by_run _ _ _ _ _ Hm eq_refl).
        by rewrite !(assoc_L (++)), last_snoc.
  - destruct (save_results_log (rows_from nlp explain 0 texts)
                (emit ([LSampleCount (length texts)] ++ analyze_lines nlp explain texts
                       ++ report_lines explain (rows_from nlp explain 0 texts)) w))
      as (w3 & log & Hs & Hlog).
    pose proof (main_on_run nlp explain texts w w3 E Hs) as Hm.
    rewrite (attempted_by_run _ _ _ _ (csv_path :: log) Hm) by done.
    split; [split; [done|]|]; intros HF; exfalso; apply E; by apply rows_from_nil.
Qed.

Lemma main_writes_iff_entities_witness :
  Forall (λ t, picky_nlp t = []) ["Nothing to see."; "Nor here."] ∧
  attempted_by (main_on picky_nlp stub_explain ["Nothing to see."; "Nor here."])
    csv_denied_world = [] ∧
  files (world_after (main_on picky_nlp stub_explain ["Nothing to see."; "Nor here."])
           csv_denied_world)
  = files csv_denied_world ∧
  last (printed_by (main_on picky_nlp stub_explain ["Nothing to see."; "Nor here."])
          csv_denied_world)
  = Some LNoEntitiesInTexts.
Proof.
  assert (Forall (λ t, picky_nlp t = []) ["Nothing to see."; "Nor here."]) as Hall
    by (by repeat constructor).
  destruct (main_writes_iff_entities picky_nlp stub_explain
              ["Nothing to see."; "Nor here."] csv_denied_world) as [H1 H2].
  split; [exact Hall|]. split; [by apply H1|]. by apply H2.
Defined.

(** X14: what the extractor finds in the custom text has no influence on
    the files: two pipelines that agree on the analysed texts lead to the
    same outcome, the same attempted writes and the same files. *)
Theorem custom_text_does_not_reach_files nlp1 nlp2 explain texts w :
  (∀ t, t ∈ texts → nlp1 t = nlp2 t) →
  result_of (main_on nlp1 explain texts) w = result_of (main_on nlp2 explain texts) w ∧
  attempted_by (main_on nlp1 explain texts) w
  = attempted_by (main_on nlp2 explain texts) w ∧
  files (world_after (main_on nlp1 explain texts) w)
  = files (world_after (main_on nlp2 explain texts) w).
Proof.
  intros Hag. destruct (rows_from_ext nlp1 nlp2 explain 0 texts Hag) as [Er El].
  assert (analyze_lines nlp1 explain texts = analyze_lines nlp2 explain texts) as Ea
    by (unfold analyze_lines; by rewrite Er, El).
  destruct (decide (rows_from nlp1 explain 0 texts = [])) as [E|E].
  - unfold result_of, attempted_by, world_after.
    rewrite !main_on_empty by (by rewrite <- ?Er). by rewrite Ea.
  - destruct (save_results_log (rows_from nlp1 explain 0 texts)
                (emit ([LSampleCount (length texts)] ++ analyze_lines nlp1 explain texts
                       ++ report_lines explain (rows_from nlp1 explain 0 texts)) w))
      as (w3 & log & Hs & Hlog).
    pose proof (main_on_run nlp1 explain texts w w3 E Hs) as Hm1.
    rewrite Er, Ea in Hs. rewrite Er in E.
    pose proof (main_on_run nlp2 explain texts w w3 E Hs) as Hm2.
    unfold result_of, attempted_by, world_after. by rewrite Hm1, Hm2.
Qed.

Lemma custom_text_does_not_reach_files_witness :
  (∀ t, t ∈ [obama_text] → stub_nlp t = blind_nlp t) ∧
  stub_nlp custom_text ≠ blind_nlp custom_text ∧
  files (world_after (main_on stub_nlp stub_explain [obama_text]) healthy_world)
  = files (world_after (main_on blind_nlp stub_explain [obama_text]) healthy_world).
Proof.
  assert (∀ t, t ∈ [obama_text] → stub_nlp t = blind_nlp t) as Hag.
  { intros t ->%list_elem_of_singleton. reflexivity. }
  split; [exact Hag|]. split; [done|].
  apply (custom_text_does_not_reach_files stub_nlp blind_nlp stub_explain
           [obama_text] healthy_world Hag).
Defined.

(** X15: end to end, when some text has an entity and neither write fails,
    the program returns normally having written exactly the two files: the
    CSV file holds the rows that [analyze_texts] returns, and the report
    carries their number and the clock's timestamp. *)
Theorem main_saves_the_analysis nlp explain texts w t :
  t ∈ texts →
  nlp t ≠ [] →
  faults w csv_path = None →
  faults w report_path = None →
  ∃ rows rep,
    result_of (analyze_texts nlp explain texts) w = Ok rows ∧
    result_of (main_on nlp explain texts) w = Ok () ∧
    attempted_by (main_on nlp explain texts) w = [csv_path; report_path] ∧
    files (world_after (main_on nlp explain texts) w) !! csv_path
    = Some (CsvFile rows) ∧
    files (world_after (main_on nlp explain texts) w) !! report_path
    = Some (TextFile rep) ∧
    rep_total_entities rep = length rows ∧
    rep_date rep = clock w.
Proof.
  intros Hin Hne Ec Er.
  assert (rows_from nlp explain 0 texts ≠ []) as Hrows.
  { intros Hnil%rows_from_nil. rewrite Forall_forall in Hnil. by apply Hne, Hnil. }
  pose proof (main_on_run nlp explain texts w _ Hrows
                (save_results_run _ (emit _ w) Hrows Ec Er)) as Hm.
  eexists _, _. split; [apply result_of_analyze|]. split_and!.
  - unfold result_of. by rewrite Hm.
  - apply (attempted_by_run _ _ _ _ _ Hm). cbn [write_log emit store].
    by rewrite <- (assoc_L (++)).
  - unfold world_after. rewrite Hm. cbn [snd files emit store].
    rewrite lookup_insert_ne by done. apply lookup_insert_eq.
  - unfold world_after. rewrite Hm. cbn [snd files emit store].
    apply lookup_insert_eq.
  - done.
  - done.
Qed.

Lemma main_saves_the_analysis_witness :
  obama_text ∈ [obama_text] ∧
  stub_nlp obama_text ≠ [] ∧
  faults healthy_world csv_path = None ∧
  faults healthy_world report_path = None ∧
  ∃ rows rep,
    result_of (analyze_texts stub_nlp stub_explain [obama_text]) healthy_world = Ok rows ∧
    result_of (main_on stub_nlp stub_explain [obama_text]) healthy_world = Ok () ∧
    attempted_by (main_on stub_nlp stub_explain [obama_text]) healthy_world
    = [csv_path; report_path] ∧
    files (world_after (main_on stub_nlp stub_explain [obama_text]) healthy_world)
      !! csv_path = Some (CsvFile rows) ∧
    files (world_after (main_on stub_nlp stub_explain [obama_text]) healthy_world)
      !! report_path = Some (TextFile rep) ∧
    rep_total_entities rep = length rows ∧
    rep_date rep = "2024-01-01 00:00:00".
Proof.
  assert (obama_text ∈ [obama_text]) as Hin by left.
  split; [exact Hin|]. split; [done|]. split; [reflexivity|]. split; [reflexivity|].
  apply (main_saves_the_analysis stub_nlp stub_explain [obama_text] healthy_world
           obama_text Hin); [done | reflexivity | reflexivity].
Defined.

(** ** Start-up *)

Lemma install_requirements_run h :
  install_requirements h
  = (Ok (), if importable (site h) then h else after_install h).
Proof.
  unfold install_requirements. destruct (importable (site h)); [done|].
  unfold after_install, mbind, Boot_bind, boot_print, os_system. cbn.
  by rewrite <- !(assoc_L (++)).
Qed.

Lemma load_spacy_model_run h :
  load_spacy_model h
  = match spacy_models (site h) model_name with
    | Raise (OSError _) =>
        (spacy_models (site (after_download h)) model_name, after_download h)
    | other => (other, h)
    end.
Proof.
  unfold load_spacy_model, try_except_ioerror, spacy_load, mbind, Boot_bind.
  destruct (spacy_models (site h) model_name) as [nlp|[| |msg]] eqn:E; [done..|].
  cbn. fold (after_download h).
  by destruct (spacy_models (shell h download_cmd (site h)) model_name).
Qed.

(** X16: [load_spacy_model] retries once and only after an [IOError].  Its
    outcome, pipeline or error, is what [spacy.load] answers on the host it
    leaves, and it touches neither the script's console nor any file.  When
    the first load does not raise an [IOError], the host is left exactly as
    it was, so any other error passes through without a download.  When it
    does, the start-up message is printed and the download is run, once. *)
Theorem load_spacy_model_outcome h :
  world (host_after load_spacy_model h) = world h ∧
  boot_result load_spacy_model h
  = spacy_models (site (host_after load_spacy_model h)) model_name ∧
  ((∀ msg, spacy_models (site h) model_name ≠ Raise (OSError msg)) →
   host_after load_spacy_model h = h) ∧
  (∀ msg, spacy_models (site h) model_name = Raise (OSError msg) →
   commands (host_after load_spacy_model h) = commands h ++ [download_cmd] ∧
   boot_console (host_after load_spacy_model h) = boot_console h ++ [BModelNotFound] ∧
   site (host_after load_spacy_model h) = shell h download_cmd (site h)).
Proof.
  unfold boot_result, host_after. rewrite load_spacy_model_run.
  destruct (spacy_models (site h) model_name) as [nlp|[| |m]] eqn:E;
    cbn [fst snd]; split_and!; rewrite ?E; try done.
  intros H. by destruct (H m).
Qed.

Lemma load_spacy_model_outcome_witness :
  (∀ msg, spacy_models (site corrupt_host) model_name ≠ Raise (OSError msg)) ∧
  host_after load_spacy_model corrupt_host = corrupt_host ∧
  boot_result load_spacy_model corrupt_host = Raise (KeyError "lang") ∧
  spacy_models (site offline_host) model_name = Raise model_missing ∧
  commands (host_after load_spacy_model offline_host) = [download_cmd] ∧
  boot_result load_spacy_model offline_host = Raise model_missing ∧
  boot_result load_spacy_model fresh_host = Ok stub_nlp.
Proof.
  destruct (load_spacy_model_outcome corrupt_host) as (_ & H2 & H3 & _).
  destruct (load_spacy_model_outcome offline_host) as (_ & K2 & _ & K4).
  destruct (load_spacy_model_outcome fresh_host) as (_ & F2 & _ & F4).
  assert (∀ msg, spacy_models (site corrupt_host) model_name ≠ Raise (OSError msg))
    as Hc by done.
  assert (spacy_models (site offline_host) model_name = Raise model_missing)
    as Ho by reflexivity.
  destruct (K4 _ Ho) as (K5 & _ & K6).
  destruct (F4 _ Ho) as (_ & _ & F6).
  split; [exact Hc|]. split; [exact (H3 Hc)|].
  split; [by rewrite H2, (H3 Hc)|]. split; [exact Ho|]. split; [exact K5|].
  split; [by rewrite K2, K6|]. by rewrite F2, F6.
Defined.

Lemma run_main_run explain h :
  let h1 := if importable (site h) then h else after_install h in
  run_main explain h
  = match load_spacy_model h1 with
    | (Ok nlp, h2) => lift_io (main nlp explain) h2
    | (Raise e, h2) => (Raise e, h2)
    end.
Proof.
  intros h1. unfold run_main.
  unfold mbind at 1, Boot_bind at 1. rewrite install_requirements_run. fold h1.
  unfold mbind, Boot_bind. by destruct (load_spacy_model h1) as [[nlp|e] h2].
Qed.

Lemma lift_io_main nlp explain h :
  lift_io (main nlp explain) h
  = (Ok (), mkHost (site h) (shell h) (commands h) (boot_console h)
              (world_after (main nlp explain) (world h))).
Proof.
  unfold lift_io, world_after. pose proof (main_on_returns nlp explain
    get_sample_texts (world h)) as Hr. unfold result_of in Hr. fold (main nlp explain) in Hr.
  destruct (main nlp explain (world h)) as [r w']. simpl in *. by rewrite Hr.
Qed.

(** The three ways [run_main] can go, after the installation step. *)
Lemma run_main_cases explain h :
  let h1 := if importable (site h) then h else after_install h in
  let h2 := host_after load_spacy_model h1 in
  world h2 = world h ∧
  match spacy_models (site h2) model_name with
  | Ok nlp =>
      run_main explain h
      = (Ok (), mkHost (site h2) (shell h2) (commands h2) (boot_console h2)
                  (world_after (main nlp explain) (world h)))
  | Raise e => run_main explain h = (Raise e, h2)
  end.
Proof.
  intros h1 h2.
  destruct (load_spacy_model_outcome h1) as (Hw & Hres & _).
  fold h2 in Hw, Hres.
  assert (world h1 = world h) as Hw1 by (unfold h1; by destruct (importable (site h))).
  split; [congruence|].
  rewrite run_main_run. fold h1.
  rewrite (surjective_pairing (load_spacy_model h1)).
  fold (boot_result load_spacy_model h1) (host_after load_spacy_model h1).
  fold h2. rewrite Hres.
  destruct (spacy_models (site h2) model_name) as [nlp|e]; [|done].
  rewrite lift_io_main. by rewrite Hw, Hw1.
Qed.

(** X17: the program fails fast.  The only way [main] can fail is that
    [spacy.load] fails, at once with another error than [IOError] or again
    after the download; [main] then raises that error without having run
    any of steps 3 to 7: none of the script's lines is printed and no file
    is touched. *)
Theorem run_main_fails_fast explain h :
  boot_result (run_main explain) h ≠ Ok () →
  ∃ e,
    boot_result (run_main explain) h = Raise e ∧
    spacy_models (site (host_after (run_main explain) h)) model_name = Raise e ∧
    world (host_after (run_main explain) h) = world h.
Proof.
  unfold boot_result, host_after.
  destruct (run_main_cases explain h) as [Hw Hc]. cbv zeta in Hw, Hc.
  destruct (spacy_models (site (host_after load_spacy_model _)) model_name)
    as [nlp|e] eqn:E; rewrite Hc.
  - by intros [].
  - intros _. exists e. by split_and!.
Qed.

Lemma run_main_fails_fast_witness :
  boot_result (run_main stub_explain) offline_host ≠ Ok () ∧
  boot_result (run_main stub_explain) offline_host = Raise model_missing ∧
  world (host_after (run_main stub_explain) offline_host) = healthy_world.
Proof.
  assert (boot_result (run_main stub_explain) offline_host ≠ Ok ()) as Hne.
  { unfold boot_result. rewrite run_main_run. vm_compute. discriminate. }
  destruct (run_main_fails_fast stub_explain offline_host Hne) as (e & H1 & _ & H3).
  split; [exact Hne|]. split; [|exact H3].
  rewrite H1. unfold boot_result in H1. rewrite run_main_run in H1.
  vm_compute in H1. by injection H1 as <-.
Defined.

(** X18: when [spacy.load] answers with a pipeline on the host the program
    leaves, the program has returned normally, and what it did to the
    console and the files is what steps 3 to 7 do with that pipeline. *)
Theorem run_main_runs_the_script explain h nlp :
  spacy_models (site (host_after (run_main explain) h)) model_name = Ok nlp →
  boot_result (run_main explain) h = Ok () ∧
  world (host_after (run_main explain) h) = world_after (main nlp explain) (world h).
Proof.
  unfold boot_result, host_after.
  destruct (run_main_cases explain h) as [Hw Hc]. cbv zeta in Hw, Hc.
  destruct (spacy_models (site (host_after load_spacy_model _)) model_name)
    as [p|e] eqn:E; rewrite Hc; cbn [fst snd site world].
  - rewrite E. by intros [= ->].
  - rewrite E. done.
Qed.

Lemma run_main_runs_the_script_witness :
  spacy_models (site (host_after (run_main stub_explain) fresh_host)) model_name
  = Ok stub_nlp ∧
  boot_result (run_main stub_explain) fresh_host = Ok () ∧
  world (host_after (run_main stub_explain) fresh_host)
  = world_after (main stub_nlp stub_explain) healthy_world.
Proof.
  assert (spacy_models (site (host_after (run_main stub_explain) fresh_host)) model_name
          = Ok stub_nlp) as E.
  { unfold host_after. rewrite run_main_run. cbv zeta.
    change (if importable (site fresh_host) then fresh_host else after_install fresh_host)
      with fresh_host.
    replace (load_spacy_model fresh_host) with (Ok stub_nlp, after_download fresh_host)
      by reflexivity.
    by rewrite lift_io_main. }
  split; [exact E|]. exact (run_main_runs_the_script stub_explain fresh_host stub_nlp E).
Defined.

(** X19: steps 1 and 2 run at most three shell commands and nothing but the
    package installation and the model download; on a host where the
    packages import and the model loads they run no command, print nothing
    and leave the installation as it is. *)
Theorem run_main_commands explain h :
  (∃ cmds,
     commands (host_after (run_main explain) h) = commands h ++ cmds ∧
     cmds ∈ [[]; [download_cmd]; [pip_install_cmd; download_cmd];
             [pip_install_cmd; download_cmd; download_cmd]]) ∧
  (∀ nlp,
     importable (site h) = true →
     spacy_models (site h) model_name = Ok nlp →
     commands (host_after (run_main explain) h) = commands h ∧
     boot_console (host_after (run_main explain) h) = boot_console h ∧
     site (host_after (run_main explain) h) = site h).
Proof.
  set (h1 := if importable (site h) then h else after_install h).
  assert (commands (host_after (run_main explain) h)
          = commands (host_after load_spacy_model h1) ∧
          boot_console (host_after (run_main explain) h)
          = boot_console (host_after load_spacy_model h1) ∧
          site (host_after (run_main explain) h)
          = site (host_after load_spacy_model h1)) as (Hc & Hb & Hs).
  { destruct (run_main_cases explain h) as [_ Hc]. cbv zeta in Hc. fold h1 in Hc.
    unfold host_after at 1 3 5.
    destruct (spacy_models (site (host_after load_spacy_model h1)) model_name);
      by rewrite Hc. }
  rewrite Hc, Hb, Hs. clear Hc Hb Hs. unfold h1. clear h1.
  unfold host_after. split.
  - destruct (importable (site h)); rewrite load_spacy_model_run.
    + destruct (spacy_models (site h) model_name) as [p|[| |m]].
      1-3: exists []; split; [by rewrite (right_id_L [] (++))|left].
      exists [download_cmd]. split; [done|right; left].
    + destruct (spacy_models (site (after_install h)) model_name) as [p|[| |m]].
      1-3: exists [pip_install_cmd; download_cmd]; split; [done|do 2 right; left].
      exists [pip_install_cmd; download_cmd; download_cmd].
      split; [|do 3 right; left]. cbn. by rewrite <- (assoc_L (++)).
  - intros nlp -> E. rewrite load_spacy_model_run, E. done.
Qed.

Lemma run_main_commands_witness :
  importable (site ready_host) = true ∧
  spacy_models (site ready_host) model_name = Ok stub_nlp ∧
  commands (host_after (run_main stub_explain) ready_host) = [] ∧
  boot_console (host_after (run_main stub_explain) ready_host) = [] ∧
  site (host_after (run_main stub_explain) ready_host) = site ready_host.
Proof.
  split; [reflexivity|]. split; [reflexivity|].
  exact (proj2 (run_main_commands stub_explain ready_host) stub_nlp eq_refl eq_refl).
Defined.
